(** * Banner-generator: a shallow embedding of the compositing and layout
    helpers of [Banner-generator.py] and their properties.

    Python strings are modelled as [list ascii]; Python exceptions as the
    [Err] branch of [result]; Pillow operations that the code only calls
    are modelled by their size contracts, with the pixel-level parts left
    as parameters. *)

From Stdlib Require Import ZArith QArith Qround List Ascii String Bool Lia Lqa.
Import ListNotations.

Open Scope Z_scope.

(** ** Python values *)

Inductive exn := ValueError | IndexError.

Inductive result (A : Type) := Ok (a : A) | Err (e : exn).
Arguments Ok {A} a.
Arguments Err {A} e.

Definition pystr := list ascii.

(** [str.isspace] on the code points 0-255: space, \t, \n, \v, \f, \r,
    the separators \x1c-\x1f, \x85 and \xa0. *)
Definition is_ws (c : ascii) : bool :=
  let n := nat_of_ascii c in
  (n =? 32)%nat || ((9 <=? n)%nat && (n <=? 13)%nat)
  || ((28 <=? n)%nat && (n <=? 31)%nat) || (n =? 133)%nat || (n =? 160)%nat.

Definition sp : ascii := " "%char.

(** [str.split()] with no argument: split on runs of whitespace, dropping
    empty pieces. [cur] is the word being read. *)
Fixpoint split_aux (cur : pystr) (s : pystr) : list pystr :=
  match s with
  | [] => match cur with [] => [] | _ => [cur] end
  | c :: s' =>
      if is_ws c then
        match cur with
        | [] => split_aux [] s'
        | _ => cur :: split_aux [] s'
        end
      else split_aux (cur ++ [c]) s'
  end.

Definition py_split (s : pystr) : list pystr := split_aux [] s.

Fixpoint lstrip (s : pystr) : pystr :=
  match s with
  | c :: s' => if is_ws c then lstrip s' else s
  | [] => []
  end.

(** [str.strip()] with no argument. *)
Definition py_strip (s : pystr) : pystr := rev (lstrip (rev (lstrip s))).

(** [" ".join(ws)]. *)
Fixpoint join_sp (ws : list pystr) : pystr :=
  match ws with
  | [] => []
  | [w] => w
  | w :: ws' => w ++ sp :: join_sp ws'
  end.

Definition is_empty (s : pystr) : bool :=
  match s with [] => true | _ => false end.

(** ** Word wrap of [draw_text] / [draw_text_multiline] *)

Section Wrap.

(** [measure(t)[0]]: the width of the text bounding box in the chosen
    font. *)
Variable measure : pystr -> Z.

(** [max_w = int(W*0.9)]. For the integer widths of a canvas the double
    product [W*0.9] truncates to [9*W/10]. *)
Definition max_w (W : Z) : Z := Z.quot (9 * W) 10.

Variable W : Z.

(** The loop
<<
    lines, line = [], ""
    for word in words:
        trial = (line + " " + word).strip()
        ww,_ = measure(trial)
        if not line or ww <= max_w:
            line = trial
        else:
            lines.append(line); line = word
    if line: lines.append(line)
>> *)
Fixpoint wrap_loop (lines : list pystr) (line : pystr) (words : list pystr)
  : list pystr :=
  match words with
  | [] => if is_empty line then lines else lines ++ [line]
  | word :: words' =>
      let trial := py_strip (line ++ sp :: word) in
      if is_empty line || (measure trial <=? max_w W)
      then wrap_loop lines trial words'
      else wrap_loop (lines ++ [line]) word words'
  end.

Definition wrap (text : pystr) : list pystr := wrap_loop [] [] (py_split text).

(** Every prefix of at least two words of a line fits in [max_w]. *)
Definition prefix_ok (g : list pystr) : Prop :=
  forall k, (2 <= k <= List.length g)%nat ->
  measure (join_sp (firstn k g)) <= max_w W.

(** A line is broken only where the next word would not fit. *)
Definition breaks_ok (groups : list (list pystr)) : Prop :=
  forall i g g', nth_error groups i = Some g -> nth_error groups (S i) = Some g' ->
  max_w W < measure (join_sp (g ++ firstn 1 g')).


End Wrap.

(** A monospace measure, one unit per character, used to exercise the wrap
    on concrete text. *)
Definition char_count (s : pystr) : Z := Z.of_nat (List.length s).

Definition sample_text : pystr :=
  list_ascii_of_string "Happy Diwali from XYZ Pipes! Special Festive Offers".

(** ** [place_image]: the paste offset of the resized overlay *)

Definition str_eqb (a b : pystr) : bool :=
  if list_eq_dec ascii_dec a b then true else false.

Definition s_ (s : string) : pystr := list_ascii_of_string s.

Definition TopLeft : pystr := s_ "Top-Left".
Definition TopRight : pystr := s_ "Top-Right".
Definition BottomLeft : pystr := s_ "Bottom-Left".
Definition BottomRight : pystr := s_ "Bottom-Right".
Definition LeftCenter : pystr := s_ "Left-Center".
Definition RightCenter : pystr := s_ "Right-Center".
Definition BottomCenter : pystr := s_ "Bottom-Center".

(** The anchors the UI offers (logo: the four corners; pipe: the three
    others) and [auto_side_choice] returns. *)
Definition anchors : list pystr :=
  [TopLeft; TopRight; BottomLeft; BottomRight; LeftCenter; RightCenter; BottomCenter].

(** Lines 217-225 of [place_image]: [bw, bh = base.size], [(ow, oh) =
    o.size] of the resized overlay, [//] is floor division.
<<
    x, y = margin, (bh - o.height)//2
    if anchor == "Left-Center": x = margin
    if anchor == "Right-Center": x = bw - o.width - margin
    if anchor == "Bottom-Center": x, y = (bw - o.width)//2, bh - o.height - margin
    if anchor == "Top-Left": x, y = margin, margin
    if anchor == "Top-Right": x, y = bw - o.width - margin, margin
    if anchor == "Bottom-Left": x, y = margin, bh - o.height - margin
    if anchor == "Bottom-Right": x, y = bw - o.width - margin, bh - o.height - margin
>> *)
Definition place_offset (anchor : pystr) (bw bh ow oh margin : Z) : Z * Z :=
  let '(x, y) := (margin, (bh - oh) / 2) in
  let x := if str_eqb anchor LeftCenter then margin else x in
  let x := if str_eqb anchor RightCenter then bw - ow - margin else x in
  let '(x, y) := if str_eqb anchor BottomCenter
                 then ((bw - ow) / 2, bh - oh - margin) else (x, y) in
  let '(x, y) := if str_eqb anchor TopLeft then (margin, margin) else (x, y) in
  let '(x, y) := if str_eqb anchor TopRight then (bw - ow - margin, margin) else (x, y) in
  let '(x, y) := if str_eqb anchor BottomLeft
                 then (margin, bh - oh - margin) else (x, y) in
  let '(x, y) := if str_eqb anchor BottomRight
                 then (bw - ow - margin, bh - oh - margin) else (x, y) in
  (x, y).

(** ** [image_blankness_score] and [auto_side_choice] *)

Fixpoint px_sum (px : list Z) : Z :=
  match px with [] => 0 | p :: px' => p + px_sum px' end.

Fixpoint px_sum2 (px : list Z) : Z :=
  match px with [] => 0 | p :: px' => p * p + px_sum2 px' end.

(** [ImageStat.Stat(gray).var[0]]: Pillow computes
    [(sum2 - sum ** 2.0 / n) / n] from the histogram, with [n] the pixel
    count. Double arithmetic is taken as exact. *)
Definition pil_var (px : list Z) : Q :=
  let n := inject_Z (Z.of_nat (List.length px)) in
  (inject_Z (px_sum2 px) - inject_Z (px_sum px) * inject_Z (px_sum px) / n) / n.

(** [1e-6] *)
Definition eps : Q := 1 # 1000000.

Section Blankness.

(** Pillow images, their [size], [crop(box)], and the pixel values of
    [img.convert("L").resize((64,64))]. *)
Variable image : Type.
Variable size : image -> Z * Z.
Variable crop : image -> Z * Z * Z * Z -> image.
Variable gray64 : image -> list Z.

Definition image_blankness_score (img : image) : Q :=
  let var := pil_var (gray64 img) in
  1 / (var + eps).

Definition left_third (bg : image) : image :=
  let '(w, h) := size bg in crop bg (0, 0, w / 3, h).

Definition right_third (bg : image) : image :=
  let '(w, h) := size bg in crop bg (w - w / 3, 0, w, h).

(** [auto_side_choice]: [left_score >= right_score]. *)
Definition auto_side_choice (bg : image) : pystr :=
  let left_score := image_blankness_score (left_third bg) in
  let right_score := image_blankness_score (right_third bg) in
  if Qle_bool right_score left_score then LeftCenter else RightCenter.

End Blankness.

(** ** [choose_best_pipe_for_background] *)

(** What [Image.open(p)] yields for a file: its mode and the values of its
    alpha band (read only in mode "RGBA"). *)
Record pil_file := { f_mode : pystr; f_alpha : list Z }.

(** The asset folder: [None] when [Image.open(p)] raises. *)
Definition files := pystr -> option pil_file.

Fixpoint list_min (l : list Z) : option Z :=
  match l with
  | [] => None
  | x :: l' => match list_min l' with None => Some x | Some m => Some (Z.min x m) end
  end.

(** The body of the [try]:
    [im.mode == "RGBA" and im.getchannel("A").getextrema()[0] < 255].
    [None] is an exception (unreadable file, or no extrema for an empty
    band), which the [except] turns into [continue]. *)
Definition inspect (fs : files) (p : pystr) : option bool :=
  match fs p with
  | None => None
  | Some im =>
      if str_eqb (f_mode im) (s_ "RGBA") then
        match list_min (f_alpha im) with
        | None => None
        | Some m => Some (m <? 255)
        end
      else Some false
  end.

(** The loop filling [rgba_first] and [others], in listing order. *)
Fixpoint classify (fs : files) (ps : list pystr) : list pystr * list pystr :=
  match ps with
  | [] => ([], [])
  | p :: ps' =>
      let '(rgba_first, others) := classify fs ps' in
      match inspect fs p with
      | None => (rgba_first, others)
      | Some true => (p :: rgba_first, others)
      | Some false => (rgba_first, p :: others)
      end
  end.

(** [candidates] is [sorted(glob.glob(str(PIPES_DIR / "*.*")))];
    [ordered[0]] on an empty list raises [IndexError]. *)
Definition choose_best_pipe_for_background (fs : files) (candidates : list pystr)
  : result (option pystr) :=
  match candidates with
  | [] => Ok None
  | _ =>
      let '(rgba_first, others) := classify fs candidates in
      match rgba_first ++ others with
      | [] => Err IndexError
      | p :: _ => Ok (Some p)
      end
  end.

(** A listing of two files: an opaque RGB photo first, then a grayscale
    photo with an alpha band that is fully transparent in places. *)
Definition pipes_ex : files :=
  fun p => if str_eqb p (s_ "a.png") then Some {| f_mode := s_ "RGB"; f_alpha := [] |}
           else if str_eqb p (s_ "b.png") then Some {| f_mode := s_ "LA"; f_alpha := [0; 255] |}
           else None.

(** ** [hex_to_rgba] *)

(** A Python value passed as [hex_str]: a [str] or anything else. *)
Inductive pyval := VStr (s : pystr) | VOther.

Definition hex_digit (c : ascii) : option Z :=
  let n := Z.of_nat (nat_of_ascii c) in
  if (48 <=? n) && (n <=? 57) then Some (n - 48)
  else if (97 <=? n) && (n <=? 102) then Some (n - 87)
  else if (65 <=? n) && (n <=? 70) then Some (n - 55)
  else None.

(** Digits after the first, each possibly preceded by one underscore. *)
Fixpoint hex_digits (s : pystr) (acc : Z) : option Z :=
  match s with
  | [] => Some acc
  | c :: s' =>
      if Ascii.eqb c "_"%char then
        match s' with
        | d :: s'' =>
            match hex_digit d with
            | Some v => hex_digits s'' (acc * 16 + v)
            | None => None
            end
        | [] => None
        end
      else
        match hex_digit c with
        | Some v => hex_digits s' (acc * 16 + v)
        | None => None
        end
  end.

(** The unsigned part of a base-16 literal: an optional "0x"/"0X" prefix
    followed by [(["_"] hexdigit)+], or [hexdigit (["_"] hexdigit)*]. *)
Definition hex_body (s : pystr) : option Z :=
  match s with
  | c0 :: c1 :: rest =>
      if Ascii.eqb c0 "0"%char && (Ascii.eqb c1 "x"%char || Ascii.eqb c1 "X"%char)
      then match rest with [] => None | _ => hex_digits rest 0 end
      else match hex_digit c0 with
           | Some v => hex_digits (c1 :: rest) v
           | None => None
           end
  | [c0] => hex_digit c0
  | [] => None
  end.

(** [int(x, 16)]: surrounding whitespace is ignored, then an optional
    sign; [None] is the [ValueError]. *)
Definition py_int16 (x : pystr) : option Z :=
  match py_strip x with
  | c :: b =>
      if Ascii.eqb c "-"%char then option_map Z.opp (hex_body b)
      else if Ascii.eqb c "+"%char then hex_body b
      else hex_body (c :: b)
  | [] => None
  end.

(** [s[i:j]] for [0 <= i <= j]. *)
Definition slice (s : pystr) (i j : nat) : pystr := firstn (j - i) (skipn i s).

Definition hex_to_rgba (hex_str : pyval) (a : Z) : result (Z * Z * Z * Z) :=
  match hex_str with
  | VStr s =>
      if match s with c :: _ => Ascii.eqb c "#"%char | [] => false end
         && (List.length s =? 7)%nat
      then match py_int16 (slice s 1 3), py_int16 (slice s 3 5), py_int16 (slice s 5 7) with
           | Some r, Some g, Some b => Ok (r, g, b, a)
           | _, _, _ => Err ValueError
           end
      else Ok (255, 255, 255, a)
  | VOther => Ok (255, 255, 255, a)
  end.

(** ** The font size of [draw_text] and [draw_text_multiline] *)

(** [int(q)]: truncation toward zero. *)
Definition py_int (q : Q) : Z :=
  if Qle_bool 0 q then Qfloor q else - Qfloor (- q).

(** [round(q)]: to the nearest integer, ties to even. *)
Definition py_round (q : Q) : Z :=
  let f := Qfloor q in
  let d := (q - inject_Z f)%Q in
  if Qlt_le_dec d (1 # 2) then f
  else if Qeq_bool d (1 # 2) then (if Z.even f then f else f + 1)
  else f + 1.

(** [max(12, int(W*font_size_ratio))], the ratio taken as exact. *)
Definition font_px (W : Z) (ratio : Q) : Z := Z.max 12 (py_int (inject_Z W * ratio)).

(** ** [gradient_fallback] and [call_ai_background] *)

(** A Pillow image: mode, width, height and the band values of each
    pixel. *)
Record img := { i_mode : pystr; i_w : Z; i_h : Z; i_px : Z -> Z -> list Z }.

Definition bind {A B} (r : result A) (k : A -> result B) : result B :=
  match r with Ok a => k a | Err e => Err e end.

Notation "'let*' x := r 'in' k" := (bind r (fun x => k))
  (at level 200, x name, r at level 100, k at level 200).

(** [Image.new(mode, (w, h), color)]: a negative size raises
    [ValueError]. *)
Definition image_new (mode : pystr) (w h : Z) (color : list Z) : result img :=
  if (w <? 0) || (h <? 0) then Err ValueError
  else Ok {| i_mode := mode; i_w := w; i_h := h; i_px := fun _ _ => color |}.

(** [Image.linear_gradient("L")]: 256x256, black at the top row to white
    at the bottom row. *)
Definition linear_gradient_L : img :=
  {| i_mode := s_ "L"; i_w := 256; i_h := 256; i_px := fun _ y => [y] |}.

(** [im.resize((w, h))] with Pillow's resampling filter [resample]. Only
    positive target sizes are taken to succeed. *)
Definition image_resize (resample : img -> Z -> Z -> Z -> Z -> list Z)
  (im : img) (w h : Z) : result img :=
  if (0 <? w) && (0 <? h)
  then Ok {| i_mode := i_mode im; i_w := w; i_h := h; i_px := resample im w h |}
  else Err ValueError.

(** Pillow's [DIV255] and the per-band blend of [paste] through an "L"
    mask: [out * (255 - m) + in * m], divided by 255 with rounding. *)
Definition div255 (a : Z) : Z :=
  let t := a + 128 in Z.shiftr (Z.shiftr t 8 + t) 8.

Definition blend_px (src dst : list Z) (m : Z) : list Z :=
  map (fun '(i, o) => div255 (o * (255 - m) + i * m)) (combine src dst).

Definition mask_value (px : list Z) : Z :=
  match px with m :: _ => m | [] => 0 end.

(** [Image.composite(image1, image2, mask)]: a copy of [image2] with
    [image1] pasted through [mask]; sizes must agree. *)
Definition image_composite (image1 image2 mask : img) : result img :=
  if (i_w image1 =? i_w image2) && (i_h image1 =? i_h image2)
     && (i_w mask =? i_w image2) && (i_h mask =? i_h image2)
  then Ok {| i_mode := i_mode image2; i_w := i_w image2; i_h := i_h image2;
             i_px := fun x y => blend_px (i_px image1 x y) (i_px image2 x y)
                                         (mask_value (i_px mask x y)) |}
  else Err ValueError.

Definition grad_top : list Z := [20; 20; 28; 255].
Definition grad_bottom : list Z := [120; 60; 20; 255].

Section Background.

Variable resample : img -> Z -> Z -> Z -> Z -> list Z.

Definition gradient_fallback (width height : Z) : result img :=
  let* base := image_new (s_ "RGBA") width height grad_top in
  let* overlay := image_new (s_ "RGBA") width height grad_bottom in
  let* mask := image_resize resample linear_gradient_L width height in
  image_composite overlay base mask.

(** [call_ai_background(prompt, width, height)] with [AI_IMAGE_API_URL]
    [api_url]; [response] is the outcome of the HTTP request, its status
    check and the decoding of the returned bytes. *)
Definition call_ai_background (api_url prompt : pystr) (width height : Z)
  (response : result img) : result img :=
  if is_empty api_url || is_empty (py_strip prompt) then gradient_fallback width height
  else match response with
       | Ok im => Ok im
       | Err _ => gradient_fallback width height
       end.

End Background.

(** Nearest-neighbour resampling, a filter to exercise the model with. *)
Definition nearest (im : img) (w h x y : Z) : list Z :=
  i_px im (x * i_w im / w) (y * i_h im / h).

(** ** [font_from_path], [draw_text_multiline] and [draw_text] *)

(** One [draw.text((x, y), line, font=fnt, fill=fill)] call. *)
Record text_op := TextOp { t_x : Z; t_y : Z; t_line : pystr; t_fill : Z * Z * Z * Z }.

Definition shadow_fill : Z * Z * Z * Z := (0, 0, 0, 160).

Definition devanagari_paths : list pystr :=
  [s_ "NotoSansDevanagari-Regular.ttf";
   s_ "/usr/share/fonts/truetype/noto/NotoSansDevanagari-Regular.ttf";
   s_ "/System/Library/Fonts/Supplemental/NotoSansDevanagari-Regular.ttf"].

Definition latin_paths : list pystr :=
  [s_ "DejaVuSans.ttf"; s_ "/usr/share/fonts/truetype/dejavu/DejaVuSans.ttf"].

Section Text.

Variable font : Type.
(** [ImageFont.truetype(p, px)], [None] when it raises. *)
Variable truetype : pystr -> Z -> option font.
(** [ImageFont.load_default()]. *)
Variable load_default : font.
(** [draw.textbbox((0,0), t, font=fnt)]: (left, top, right, bottom). *)
Variable textbbox : font -> pystr -> Z * Z * Z * Z.

Definition try_paths (path_hint : pystr) (devanagari : bool) : list pystr :=
  (if is_empty (py_strip path_hint) then [] else [py_strip path_hint])
  ++ (if devanagari then devanagari_paths else latin_paths).

(** [for p in try_paths: try: return ImageFont.truetype(p, px)]. *)
Fixpoint first_font (px : Z) (ps : list pystr) : option font :=
  match ps with
  | [] => None
  | p :: ps' =>
      match truetype p px with
      | Some f => Some f
      | None => first_font px ps'
      end
  end.

Definition font_from_path (path_hint : pystr) (px : Z) (devanagari : bool) : font :=
  match first_font px (try_paths path_hint devanagari) with
  | Some f => f
  | None => load_default
  end.

Definition measure (fnt : font) (t : pystr) : Z * Z :=
  let '(l, t0, r, b) := textbbox fnt t in (r - l, b - t0).

(** [sum(measure(l)[1] for l in lines)]. *)
Fixpoint sum_heights (m : pystr -> Z * Z) (lines : list pystr) : Z :=
  match lines with
  | [] => 0
  | l :: ls => snd (m l) + sum_heights m ls
  end.

Definition total_h (m : pystr -> Z * Z) (lines : list pystr) : Z :=
  sum_heights m lines + (Z.of_nat (List.length lines) - 1) * 6.

(** The drawing loop
<<
    for i, l in enumerate(lines):
        tw, th = measure(l)
        x = (W - tw)//2
        if shadow_on:
            draw.text((x+2, y+2), l, font=fnt, fill=(0,0,0,160))
        draw.text((x, y), l, font=fnt, fill=color)
        y += heights[i] + 6
>> *)
Fixpoint draw_lines (m : pystr -> Z * Z) (W : Z) (shadow_on : bool)
  (color : Z * Z * Z * Z) (y : Z) (lines : list pystr) : list text_op :=
  match lines with
  | [] => []
  | l :: ls =>
      let x := (W - fst (m l)) / 2 in
      (if shadow_on then [TextOp (x + 2) (y + 2) l shadow_fill] else [])
      ++ TextOp x y l color :: draw_lines m W shadow_on color (y + snd (m l) + 6) ls
  end.

(** [draw_text_multiline(img, text, y_frac, fill, font_size_ratio,
    shadow_on, devanagari)] on an image of size [(W, H)]: the [draw.text]
    calls it makes, in order. *)
Definition draw_text_multiline (font_path_main font_path_hindi : pystr) (W H : Z)
  (text : pystr) (y_frac : Q) (fill : pyval) (font_size_ratio : Q)
  (shadow_on devanagari : bool) : result (list text_op) :=
  if is_empty text then Ok [] else
  let fnt := font_from_path (if devanagari then font_path_hindi else font_path_main)
               (font_px W font_size_ratio) devanagari in
  let m := measure fnt in
  let lines := wrap (fun t => fst (m t)) W text in
  let y := py_int (inject_Z H * y_frac - inject_Z (total_h m lines) / 2) in
  let* color := hex_to_rgba fill 255 in
  Ok (draw_lines m W shadow_on color y lines).

(** [draw_text(img, txt, y, ratio, devanagari)] of the Generate block, with
    the widget values [font_path_main], [font_path_hindi], [brand_color]
    and [shadow] it reads. *)
Definition draw_text (font_path_main font_path_hindi : pystr) (brand_color : pyval)
  (shadow : bool) (W_ H_ : Z) (txt : pystr) (y ratio : Q) (devanagari : bool)
  : result (list text_op) :=
  if is_empty txt then Ok [] else
  let fnt := font_from_path (if devanagari then font_path_hindi else font_path_main)
               (font_px W_ ratio) devanagari in
  let* color := hex_to_rgba brand_color 255 in
  let m := measure fnt in
  let words := py_split txt in
  let lines := wrap_loop (fun t => fst (m t)) W_ [] [] words in
  let yy := py_int (inject_Z H_ * y - inject_Z (total_h m lines) / 2) in
  Ok (draw_lines m W_ shadow color yy lines).

End Text.

(** A font of fixed advance: [n] pixels per character, [h] pixels high. *)
Definition mono_bbox (n h : Z) (f : unit) (t : pystr) : Z * Z * Z * Z :=
  (0, 0, n * Z.of_nat (List.length t), h).

(** ** [add_festival_overlays] *)

(** [str.lower()] on the code points 0-255. *)
Definition lower_char (c : ascii) : ascii :=
  let n := nat_of_ascii c in
  if ((65 <=? n)%nat && (n <=? 90)%nat)
     || ((192 <=? n)%nat && (n <=? 222)%nat && negb (n =? 215)%nat)
  then ascii_of_nat (n + 32) else c.

Definition py_lower (s : pystr) : pystr := map lower_char s.

(** One [base.alpha_composite(elem, dest=pos)] that took place. *)
Record paste := Paste { p_file : pystr; p_size : Z * Z; p_dest : Z * Z }.

(** The six decorative zones of [random.choice]. *)
Definition zones (W H ew eh margin : Z) : list (Z * Z) :=
  [(margin, margin);
   (W - ew - margin, margin);
   (margin, H - eh - margin);
   (W - ew - margin, H - eh - margin);
   (W / 2 - ew / 2, margin);
   (W / 2 - ew / 2, H - eh - margin)].

Section Overlays.

(** The state of Python's [random] module and [random.sample(files, k)],
    [random.uniform(a, b)] and [random.choice(seq)] (as an index into a
    sequence of the given length). *)
Variable rng : Type.
Variable sample : rng -> list pystr -> nat -> list pystr * rng.
Variable uniform : rng -> Q -> Q -> Q * rng.
Variable choice : rng -> nat -> nat * rng.

(** [(FEST_DIR / name).exists()] and [list((FEST_DIR / name).glob("*.png"))]. *)
Variable dir_exists : pystr -> bool.
Variable glob_png : pystr -> list pystr.
(** [Image.open(p).convert("RGBA").size], [None] when it raises. *)
Variable open_size : pystr -> option (Z * Z).
(** Whether [elem.resize(size, RESAMPLE)] and then
    [base.alpha_composite(elem, dest=pos)] succeed in the installed
    Pillow. *)
Variable resize_ok : Z * Z -> bool.
Variable composite_ok : Z * Z -> Z * Z -> bool.

(** The body of the loop on one pick: [None] when it raises and the
    [except] continues. *)
Definition overlay_one (W H : Z) (r : rng) (p : pystr) : option paste * rng :=
  match open_size p with
  | None => (None, r)
  | Some (ew, eh) =>
      let (u, r1) := uniform r (8 # 100) (20 # 100) in
      let tw := py_int (inject_Z W * u) in
      if ew =? 0 then (None, r1)
      else
        let nh := py_int (inject_Z eh * (inject_Z tw / inject_Z ew)) in
        if negb (resize_ok (tw, nh)) then (None, r1)
        else
          let margin := py_int (inject_Z (Z.min W H) * (3 # 100)) in
          let (i, r2) := choice r1 6 in
          let pos := nth i (zones W H tw nh margin) (0, 0) in
          if composite_ok (tw, nh) pos then (Some (Paste p (tw, nh) pos), r2)
          else (None, r2)
  end.

Fixpoint overlay_loop (W H : Z) (r : rng) (picks : list pystr) : list paste * rng :=
  match picks with
  | [] => ([], r)
  | p :: ps =>
      let (o, r1) := overlay_one W H r p in
      let (rest, r2) := overlay_loop W H r1 ps in
      (match o with Some x => x :: rest | None => rest end, r2)
  end.

(** The folder looked up: [festival.lower()], else [festival]. *)
Definition fest_folder (festival : pystr) : option pystr :=
  if dir_exists (py_lower festival) then Some (py_lower festival)
  else if dir_exists festival then Some festival else None.

(** [add_festival_overlays(base, festival, how_many)] on a base of size
    [(W, H)]: the overlays composited onto [base], in order, and the new
    state of the generator. *)
Definition add_festival_overlays (W H : Z) (festival : pystr) (how_many : nat) (r : rng)
  : list paste * rng :=
  match fest_folder festival with
  | None => ([], r)
  | Some folder =>
      match glob_png folder with
      | [] => ([], r)
      | files =>
          let k := Nat.min how_many (List.length files) in
          let (picks, r1) := sample r files k in
          overlay_loop W H r1 picks
      end
  end.

End Overlays.

(** Width within [int(W*0.08)..int(W*0.20)], and the overlay inside the
    base horizontally. *)
Definition overlay_fits (W : Z) (x : paste) : Prop :=
  py_int (inject_Z W * (8 # 100)) <= fst (p_size x) <= py_int (inject_Z W * (20 # 100)) /\
  0 <= fst (p_dest x) /\ fst (p_dest x) + fst (p_size x) <= W.

(** A generator to exercise the model with: a counter as the state,
    [sample] taking the first [k] files, [uniform] its lower bound and
    [choice] the counter modulo the length. *)
Definition first_sample (r : nat) (l : list pystr) (k : nat) : list pystr * nat := (firstn k l, r).
Definition low_uniform (r : nat) (a b : Q) : Q * nat := (a, S r).
Definition counter_choice (r n : nat) : nat * nat := (Nat.modulo r n, S r).

Definition fest_pngs : list pystr := [s_ "lamp.png"; s_ "rangoli.png"; s_ "diya.png"].

(** The value of [st.color_picker]: the colour as "#rrggbb", in
    lower-case hexadecimal. *)
Definition hex_char (d : Z) : ascii :=
  nth (Z.to_nat d) (list_ascii_of_string "0123456789abcdef") "0"%char.

Definition color_hex (r g b : Z) : pystr :=
  ["#"%char; hex_char (r / 16); hex_char (r mod 16); hex_char (g / 16);
   hex_char (g mod 16); hex_char (b / 16); hex_char (b mod 16)].

(** * Proofs *)

(** ** Lemmas on [str.split], [str.strip] and [" ".join] *)

Definition nonws (c : ascii) : Prop := is_ws c = false.

(** A word as produced by [str.split()]: non-empty, no whitespace. *)
Definition wordlike (w : pystr) : Prop := w <> [] /\ Forall nonws w.

Lemma is_ws_sp : is_ws sp = true.
Proof. reflexivity. Qed.

Lemma split_aux_sp : forall cur r,
  split_aux cur (sp :: r) =
  match cur with [] => split_aux [] r | _ => cur :: split_aux [] r end.
Proof. reflexivity. Qed.

Lemma split_aux_word : forall w cur rest,
  Forall nonws w -> split_aux cur (w ++ rest) = split_aux (cur ++ w) rest.
Proof.
  induction w as [|c w IH]; intros cur rest Hw; simpl.
  - now rewrite app_nil_r.
  - inversion Hw as [|? ? Hc Hw']; subst. unfold nonws in Hc. rewrite Hc.
    rewrite IH by exact Hw'. now rewrite <- app_assoc.
Qed.

Lemma split_join : forall ws, Forall wordlike ws -> py_split (join_sp ws) = ws.
Proof.
  unfold py_split.
  induction ws as [|w ws IH]; intros Hws; [reflexivity|].
  inversion Hws as [|? ? [Hne Hw] Hws']; subst.
  destruct ws as [|w' ws'].
  - pose proof (split_aux_word w [] [] Hw) as E.
    rewrite app_nil_r in E. simpl in E |- *. rewrite E.
    destruct w; [congruence|reflexivity].
  - change (join_sp (w :: w' :: ws')) with (w ++ sp :: join_sp (w' :: ws')).
    rewrite split_aux_word by exact Hw. rewrite app_nil_l, split_aux_sp.
    rewrite (IH Hws'). destruct w; [congruence|reflexivity].
Qed.

Lemma split_aux_wordlike : forall s cur,
  Forall nonws cur -> Forall wordlike (split_aux cur s).
Proof.
  induction s as [|c s IH]; intros cur Hcur; simpl.
  - destruct cur as [|c cur]; constructor; [|constructor].
    split; [discriminate|exact Hcur].
  - destruct (is_ws c) eqn:Hc.
    + destruct cur as [|c' cur']; [apply IH; constructor|].
      constructor; [split; [discriminate|exact Hcur]|apply IH; constructor].
    + apply IH. apply Forall_app. split; [exact Hcur|]. constructor; [exact Hc|constructor].
Qed.

Lemma py_split_wordlike : forall s, Forall wordlike (py_split s).
Proof. intros s. apply split_aux_wordlike. constructor. Qed.

Lemma join_sp_app : forall g h, g <> [] -> h <> [] ->
  join_sp (g ++ h) = join_sp g ++ sp :: join_sp h.
Proof.
  induction g as [|w g IH]; intros h Hg Hh; [congruence|].
  destruct g as [|w' g'].
  - simpl. destruct h; [congruence|reflexivity].
  - change ((w :: w' :: g') ++ h) with (w :: ((w' :: g') ++ h)).
    change (join_sp (w :: w' :: g')) with (w ++ sp :: join_sp (w' :: g')).
    rewrite <- app_assoc. simpl app at 2.
    rewrite <- IH by (discriminate || exact Hh).
    simpl. destruct (g' ++ h) eqn:E.
    + destruct h; [congruence|]. destruct g'; discriminate.
    + reflexivity.
Qed.

Lemma join_sp_snoc : forall g w, g <> [] ->
  join_sp (g ++ [w]) = join_sp g ++ sp :: w.
Proof. intros g w Hg. now rewrite join_sp_app by (discriminate || exact Hg). Qed.

Lemma join_sp_nonempty : forall g, Forall wordlike g -> g <> [] -> join_sp g <> [].
Proof.
  intros [|w g] Hg Hne; [congruence|].
  inversion Hg as [|? ? [Hw _] _]; subst.
  destruct g; simpl; [exact Hw|].
  destruct w; [congruence|discriminate].
Qed.

Lemma lstrip_id : forall c s, nonws c -> lstrip (c :: s) = c :: s.
Proof. intros c s Hc. simpl. unfold nonws in Hc. now rewrite Hc. Qed.

(** A string whose first and last characters are not whitespace is left
    unchanged by [strip()]. *)
Lemma py_strip_id : forall c s s' d,
  nonws c -> nonws d -> c :: s = s' ++ [d] -> py_strip (c :: s) = c :: s.
Proof.
  intros c s s' d Hc Hd E. unfold py_strip.
  rewrite lstrip_id by exact Hc. rewrite E, rev_app_distr.
  change (rev [d] ++ rev s') with (d :: rev s').
  rewrite lstrip_id by exact Hd. cbn [rev]. now rewrite rev_involutive.
Qed.

Lemma wordlike_ends : forall w, wordlike w ->
  exists c s s' d, w = c :: s /\ w = s' ++ [d] /\ nonws c /\ nonws d.
Proof.
  intros w [Hne Hw]. destruct w as [|c s]; [congruence|].
  destruct (exists_last (l := c :: s) ltac:(discriminate)) as [s' [d E]].
  exists c, s, s', d. repeat split; try assumption.
  - now inversion Hw.
  - rewrite E in Hw. apply Forall_app in Hw. destruct Hw as [_ Hd]. now inversion Hd.
Qed.

Lemma py_strip_join : forall g, Forall wordlike g -> g <> [] ->
  py_strip (join_sp g) = join_sp g.
Proof.
  intros g Hg Hne.
  destruct g as [|w g]; [congruence|].
  destruct (exists_last (l := w :: g) ltac:(discriminate)) as [g' [wl E]].
  inversion Hg as [|? ? Hw _]; subst.
  assert (Hwl : wordlike wl).
  { rewrite E in Hg. apply Forall_app in Hg. destruct Hg as [_ H]. now inversion H. }
  destruct (wordlike_ends w Hw) as [c [s [_ [_ [Ew [_ [Hc _]]]]]]].
  destruct (wordlike_ends wl Hwl) as [_ [_ [s' [d [_ [Ewl [_ Hd]]]]]]].
  assert (Hstart : exists r, join_sp (w :: g) = c :: r).
  { destruct g; simpl; subst w; eexists; reflexivity. }
  assert (Hend : exists r, join_sp (w :: g) = r ++ [d]).
  { rewrite E. destruct g' as [|x g''].
    - simpl. rewrite Ewl. eexists; reflexivity.
    - rewrite join_sp_snoc by discriminate. rewrite Ewl.
      exists (join_sp (x :: g'') ++ sp :: s'). now rewrite <- app_assoc. }
  destruct Hstart as [r Er]. destruct Hend as [r' Er'].
  rewrite Er. apply (py_strip_id c r r' d Hc Hd). congruence.
Qed.

(** ** The greedy structure of the wrap loop *)

Section WrapProofs.

Variable measure : pystr -> Z.
Variable W : Z.

Lemma wrap_loop_acc : forall words lines line,
  wrap_loop measure W lines line words = lines ++ wrap_loop measure W [] line words.
Proof.
  induction words as [|w ws IH]; intros lines line; simpl.
  - destruct (is_empty line); [now rewrite app_nil_r|reflexivity].
  - destruct (_ || _).
    + apply IH.
    + rewrite IH, (IH [line]). now rewrite app_assoc.
Qed.

Lemma prefix_ok_single : forall w, prefix_ok measure W [w].
Proof. intros w k Hk. simpl in Hk. lia. Qed.

Lemma prefix_ok_snoc : forall g w, prefix_ok measure W g ->
  (g <> [] -> measure (join_sp (g ++ [w])) <= max_w W) -> prefix_ok measure W (g ++ [w]).
Proof.
  intros g w Hg Hlast k Hk. rewrite length_app in Hk. simpl in Hk.
  destruct (Nat.eq_dec k (S (List.length g))) as [->|Hne].
  - rewrite firstn_all2 by (rewrite length_app; simpl; lia).
    apply Hlast. intros ->. simpl in Hk. lia.
  - rewrite firstn_app. replace (k - List.length g)%nat with 0%nat by lia.
    rewrite firstn_O, app_nil_r. apply Hg. lia.
Qed.

Lemma wrap_loop_greedy : forall ws g,
  Forall wordlike (g ++ ws) -> prefix_ok measure W g ->
  exists groups,
    List.concat groups = g ++ ws /\
    wrap_loop measure W [] (join_sp g) ws = map join_sp groups /\
    Forall (fun x => x <> []) groups /\
    Forall (prefix_ok measure W) groups /\
    breaks_ok measure W groups /\
    (g <> [] -> exists g' rest, groups = (g ++ g') :: rest).
Proof.
  induction ws as [|w ws IH]; intros g Hwl Hg.
  - rewrite app_nil_r in Hwl |- *.
    destruct g as [|w0 g0].
    + exists []. repeat split; try constructor; try reflexivity.
      * intros i g g' H. destruct i; discriminate.
      * intros H; congruence.
    + exists [w0 :: g0]. cbn [wrap_loop].
      destruct (is_empty (join_sp (w0 :: g0))) eqn:Ee.
      { exfalso. apply (join_sp_nonempty (w0 :: g0) Hwl ltac:(discriminate)).
        destruct (join_sp (w0 :: g0)); [reflexivity|discriminate]. }
      refine (conj _ (conj _ (conj _ (conj _ (conj _ _))))).
      * simpl. now rewrite app_nil_r.
      * reflexivity.
      * constructor; [discriminate|constructor].
      * constructor; [exact Hg|constructor].
      * intros i g g' _ H. destruct i; simpl in H; [discriminate|destruct i; discriminate].
      * intros _. exists [], []. now rewrite app_nil_r.
  - assert (Hw : wordlike w).
    { apply Forall_app in Hwl. destruct Hwl as [_ H]. now inversion H. }
    assert (Hgw : Forall wordlike g).
    { apply Forall_app in Hwl. now destruct Hwl. }
    assert (Hrest : Forall wordlike ws).
    { apply Forall_app in Hwl. destruct Hwl as [_ H]. now inversion H. }
    destruct g as [|w0 g0].
    + (* [line] is empty: the word starts the line *)
      cbn [wrap_loop join_sp is_empty orb app].
      assert (Et : py_strip (sp :: w) = join_sp [w]).
      { change (py_strip (sp :: w)) with (py_strip (join_sp [w])).
        apply (py_strip_join [w]); [constructor; [exact Hw|constructor]|discriminate]. }
      rewrite Et.
      destruct (IH [w]) as [groups [Hc [Hr [Hne [Hp [Hb _]]]]]].
      { simpl. constructor; assumption. }
      { apply prefix_ok_single. }
      exists groups. refine (conj Hc (conj Hr (conj Hne (conj Hp (conj Hb _))))).
      intros H; congruence.
    + set (g := w0 :: g0) in *.
      assert (Hgne : g <> []) by discriminate.
      assert (Et : py_strip (join_sp g ++ sp :: w) = join_sp (g ++ [w])).
      { rewrite <- join_sp_snoc by exact Hgne. apply py_strip_join.
        - apply Forall_app. split; [exact Hgw|constructor; [exact Hw|constructor]].
        - destruct g; discriminate. }
      cbn [wrap_loop]. rewrite Et.
      destruct (is_empty (join_sp g)) eqn:Ee.
      { exfalso. apply (join_sp_nonempty g Hgw Hgne).
        destruct (join_sp g); [reflexivity|discriminate]. }
      cbn [orb].
      destruct (measure (join_sp (g ++ [w])) <=? max_w W) eqn:Em.
      * (* the word fits: it is appended to the line *)
        destruct (IH (g ++ [w])) as [groups [Hc [Hr [Hne [Hp [Hb Hh]]]]]].
        { rewrite <- app_assoc. exact Hwl. }
        { apply prefix_ok_snoc; [exact Hg|]. intros _. now apply Z.leb_le. }
        exists groups.
        refine (conj _ (conj Hr (conj Hne (conj Hp (conj Hb _))))).
        -- rewrite Hc, <- app_assoc. reflexivity.
        -- intros _. destruct (Hh ltac:(destruct g; discriminate)) as [g' [rest E]].
           exists (w :: g'), rest. rewrite E, <- app_assoc. reflexivity.
      * (* the word does not fit: the line is closed *)
        rewrite wrap_loop_acc.
        destruct (IH [w]) as [groups [Hc [Hr [Hne [Hp [Hb Hh]]]]]].
        { simpl. constructor; assumption. }
        { apply prefix_ok_single. }
        destruct (Hh ltac:(discriminate)) as [g' [rest E]].
        change (join_sp [w]) with w in Hr.
        exists (g :: groups).
        refine (conj _ (conj _ (conj _ (conj _ (conj _ _))))).
        -- simpl. rewrite Hc. reflexivity.
        -- rewrite Hr. reflexivity.
        -- constructor; assumption.
        -- constructor; assumption.
        -- intros [|i] x x' H1 H2; simpl in H1, H2.
           ++ injection H1 as <-. rewrite E in H2. injection H2 as <-.
              simpl. apply Z.leb_gt. exact Em.
           ++ exact (Hb i x x' H1 H2).
        -- intros _. exists [], groups. now rewrite app_nil_r.
Qed.

End WrapProofs.

Lemma join_sp_concat : forall groups, Forall (fun x => x <> []) groups ->
  join_sp (map join_sp groups) = join_sp (List.concat groups).
Proof.
  induction groups as [|g gs IH]; intros H; [reflexivity|].
  inversion H as [|? ? Hg Hgs]; subst.
  destruct gs as [|g' gs'].
  - cbn [List.concat map]. rewrite app_nil_r. reflexivity.
  - inversion Hgs as [|? ? Hg' _]; subst.
    change (List.concat (g :: g' :: gs')) with (g ++ List.concat (g' :: gs')).
    rewrite join_sp_app by (exact Hg || (simpl; destruct g'; [congruence|discriminate])).
    change (join_sp (map join_sp (g :: g' :: gs')))
      with (join_sp g ++ sp :: join_sp (map join_sp (g' :: gs'))).
    now rewrite IH.
Qed.

Lemma Forall_concat_in : forall (P : pystr -> Prop) groups g,
  Forall P (List.concat groups) -> In g groups -> Forall P g.
Proof.
  intros P groups g H Hin. rewrite Forall_forall in H |- *.
  intros x Hx. apply H. apply in_concat. now exists g.
Qed.

(** The lines of [wrap] are the words of the text, cut into non-empty
    greedy groups. *)
Lemma wrap_groups : forall measure W text,
  exists groups,
    List.concat groups = py_split text /\
    wrap measure W text = map join_sp groups /\
    Forall (fun x => x <> []) groups /\
    Forall (prefix_ok measure W) groups /\
    breaks_ok measure W groups.
Proof.
  intros measure W text.
  destruct (wrap_loop_greedy measure W (py_split text) [])
    as [groups [Hc [Hr [Hne [Hp [Hb _]]]]]].
  - apply py_split_wordlike.
  - intros k Hk. simpl in Hk. lia.
  - exists groups. repeat split; assumption.
Qed.

Lemma split_join_wrap : forall measure W text,
  py_split (join_sp (wrap measure W text)) = py_split text.
Proof.
  intros measure W text.
  destruct (wrap_groups measure W text) as [groups [Hc [Hr [Hne _]]]].
  rewrite Hr, join_sp_concat by exact Hne. rewrite Hc.
  apply split_join, py_split_wordlike.
Qed.

Lemma measure_in_join : forall (measure : pystr -> Z),
  (forall a b, measure a <= measure (a ++ sp :: b) /\ measure b <= measure (a ++ sp :: b)) ->
  forall g w, In w g -> measure w <= measure (join_sp g).
Proof.
  intros measure Hmono.
  induction g as [|a rest IH]; intros w Hin; [destruct Hin|].
  destruct rest as [|b rest'].
  - destruct Hin as [<-|[]]. simpl. lia.
  - change (join_sp (a :: b :: rest')) with (a ++ sp :: join_sp (b :: rest')).
    destruct Hin as [<-|Hin].
    + apply Hmono.
    + specialize (IH w Hin). pose proof (proj2 (Hmono a (join_sp (b :: rest')))). lia.
Qed.

Example wrap_sample :
  map string_of_list_ascii (wrap char_count 20 sample_text) =
  ["Happy Diwali from"; "XYZ Pipes! Special"; "Festive Offers"]%string.
Proof. reflexivity. Qed.

(** ** Claims on the word wrap *)

(** C2: the wrap of [draw_text] is greedy. The lines are the words of the
    text cut into non-empty groups, in order; every prefix of two or more
    words of a line measures at most [max_w] (= 0.9 W); a line is closed only
    when adding the next word would exceed [max_w]; and, for a measure that
    does not shrink when text is joined to a line, a word wider than
    [max_w] forms a line of its own, unbroken. *)
Theorem wrap_greedy_lines : forall (measure : pystr -> Z) (W : Z) (text : pystr),
  (forall a b, measure a <= measure (a ++ sp :: b) /\ measure b <= measure (a ++ sp :: b)) ->
  exists groups,
    List.concat groups = py_split text /\
    wrap measure W text = map join_sp groups /\
    Forall (fun g => g <> []) groups /\
    Forall (prefix_ok measure W) groups /\
    breaks_ok measure W groups /\
    (forall g w, In g groups -> In w g -> max_w W < measure w -> g = [w]).
Proof.
  intros measure W text Hmono.
  destruct (wrap_groups measure W text) as [groups [Hc [Hr [Hne [Hp Hb]]]]].
  exists groups. refine (conj Hc (conj Hr (conj Hne (conj Hp (conj Hb _))))).
  intros g w Hg Hw Hlong.
  rewrite Forall_forall in Hp. specialize (Hp g Hg).
  pose proof (measure_in_join measure Hmono g w Hw) as Hle.
  destruct g as [|a [|b rest]].
  - destruct Hw.
  - destruct Hw as [<-|[]]. reflexivity.
  - exfalso. specialize (Hp (List.length (a :: b :: rest))).
    rewrite firstn_all in Hp. cbn [List.length] in Hp. specialize (Hp ltac:(lia)). lia.
Qed.

Lemma wrap_greedy_lines_witness :
  (forall a b, char_count a <= char_count (a ++ sp :: b) /\
               char_count b <= char_count (a ++ sp :: b)) /\
  exists groups,
    List.concat groups = py_split sample_text /\
    wrap char_count 20 sample_text = map join_sp groups /\
    Forall (fun g => g <> []) groups /\
    Forall (prefix_ok char_count 20) groups /\
    breaks_ok char_count 20 groups /\
    (forall g w, In g groups -> In w g -> max_w 20 < char_count w -> g = [w]).
Proof.
  split.
  - intros a b. unfold char_count. rewrite length_app. simpl. lia.
  - apply (wrap_greedy_lines char_count 20 sample_text).
    intros a b. unfold char_count. rewrite length_app. simpl. lia.
Defined.

(** C9: wrapping is idempotent: the lines of a wrap, joined with single
    spaces and wrapped again with the same measure and width, give the same
    lines. *)
Theorem wrap_idempotent : forall (measure : pystr -> Z) (W : Z) (text : pystr),
  wrap measure W (join_sp (wrap measure W text)) = wrap measure W text.
Proof.
  intros measure W text. unfold wrap at 1.
  rewrite split_join_wrap. reflexivity.
Qed.

(** C10: the wrap keeps the words of the text: the lines joined with
    spaces split into exactly the words of the text, and so do the lines
    split one by one and concatenated. *)
Theorem wrap_preserves_words : forall (measure : pystr -> Z) (W : Z) (text : pystr),
  py_split (join_sp (wrap measure W text)) = py_split text /\
  List.concat (map py_split (wrap measure W text)) = py_split text.
Proof.
  intros measure W text. split; [apply split_join_wrap|].
  destruct (wrap_groups measure W text) as [groups [Hc [Hr _]]].
  rewrite Hr, map_map.
  rewrite (map_ext_in (fun g => py_split (join_sp g)) (fun g => g)).
  - now rewrite map_id.
  - intros g Hg. apply split_join.
    apply (Forall_concat_in wordlike groups g); [rewrite Hc; apply py_split_wordlike|exact Hg].
Qed.

(** ** Claim on [place_image] *)

(** C1: for the seven anchors, [place_image] pastes the resized overlay
    [(ow, oh)] on the canvas [(bw, bh)] with margin [m] at the offset of the
    anchor table (centres by floor division), and when the overlay is not
    larger than the canvas the far edge of the pasted overlay stays within
    the canvas plus the margin. *)
Theorem place_offset_table : forall bw bh ow oh m,
  place_offset TopLeft bw bh ow oh m = (m, m) /\
  place_offset TopRight bw bh ow oh m = (bw - ow - m, m) /\
  place_offset BottomLeft bw bh ow oh m = (m, bh - oh - m) /\
  place_offset BottomRight bw bh ow oh m = (bw - ow - m, bh - oh - m) /\
  place_offset LeftCenter bw bh ow oh m = (m, (bh - oh) / 2) /\
  place_offset RightCenter bw bh ow oh m = (bw - ow - m, (bh - oh) / 2) /\
  place_offset BottomCenter bw bh ow oh m = ((bw - ow) / 2, bh - oh - m) /\
  (ow <= bw -> oh <= bh -> forall a, In a anchors ->
     fst (place_offset a bw bh ow oh m) + ow <= bw + Z.abs m /\
     snd (place_offset a bw bh ow oh m) + oh <= bh + Z.abs m).
Proof.
  intros bw bh ow oh m.
  do 7 (split; [reflexivity|]).
  intros Hw Hh anc Ha.
  assert (Hx2 : (bw - ow) / 2 + ow <= bw).
  { pose proof (Z.mul_div_le (bw - ow) 2 ltac:(lia)). lia. }
  assert (Hy2 : (bh - oh) / 2 + oh <= bh).
  { pose proof (Z.mul_div_le (bh - oh) 2 ltac:(lia)). lia. }
  simpl in Ha.
  repeat destruct Ha as [<-|Ha]; try destruct Ha; cbn; lia.
Qed.

(** ** Lemmas on the variance *)

Lemma sum_sq_dev : forall px x,
  (0 <= px_sum2 px - 2 * x * px_sum px + Z.of_nat (List.length px) * x * x)%Z.
Proof.
  induction px as [|p px IH]; intros x; cbn [px_sum px_sum2 List.length]; [lia|].
  specialize (IH x). rewrite Nat2Z.inj_succ.
  pose proof (Z.square_nonneg (p - x)). nia.
Qed.

Lemma count_sum2_ge : forall px,
  (px_sum px * px_sum px <= px_sum2 px * Z.of_nat (List.length px))%Z.
Proof.
  induction px as [|p px IH]; cbn [px_sum px_sum2 List.length]; [lia|].
  pose proof (sum_sq_dev px p) as Hd. rewrite Nat2Z.inj_succ.
  generalize dependent (px_sum px). generalize dependent (px_sum2 px).
  generalize (Z.of_nat (List.length px)). intros n s2 s IH Hd. nia.
Qed.

Lemma pil_var_nonneg : forall px, (0 <= pil_var px)%Q.
Proof.
  intros px. unfold pil_var.
  destruct px as [|p px'] eqn:E; [apply Qle_bool_iff; reflexivity|].
  rewrite <- E.
  set (n := inject_Z (Z.of_nat (List.length px))).
  assert (Hn : (0 < n)%Q).
  { unfold n. change 0%Q with (inject_Z 0). rewrite <- Zlt_Qlt. subst px. simpl List.length. lia. }
  apply Qmult_le_0_compat; [|apply Qinv_le_0_compat, Qlt_le_weak, Hn].
  apply (proj1 (Qle_minus_iff (inject_Z (px_sum px) * inject_Z (px_sum px) / n)
                              (inject_Z (px_sum2 px)))).
  apply Qle_shift_div_r; [exact Hn|].
  unfold n. rewrite <- !inject_Z_mult, <- Zle_Qle. apply count_sum2_ge.
Qed.

Lemma inv_le_iff : forall a b, (0 < a -> 0 < b -> (/ b <= / a <-> a <= b))%Q.
Proof.
  intros a b Ha Hb. split; intros H.
  - apply Qnot_lt_le. intros Hlt. apply (Qle_not_lt _ _ H).
    exact (proj1 (Qinv_lt_contravar b a Hb Ha) Hlt).
  - apply Qnot_lt_le. intros Hlt. apply (Qle_not_lt _ _ H).
    exact (proj2 (Qinv_lt_contravar b a Hb Ha) Hlt).
Qed.

Lemma score_ge_iff : forall px1 px2,
  (1 / (pil_var px2 + eps) <= 1 / (pil_var px1 + eps) <-> pil_var px1 <= pil_var px2)%Q.
Proof.
  intros px1 px2. unfold Qdiv. rewrite !Qmult_1_l.
  assert (H1 := pil_var_nonneg px1). assert (H2 := pil_var_nonneg px2).
  assert (He : (0 < eps)%Q) by reflexivity.
  rewrite inv_le_iff.
  - split; intros H.
    + apply Qplus_le_l with eps. exact H.
    + now apply Qplus_le_l.
  - apply Qlt_le_trans with (0 + eps)%Q; [now rewrite Qplus_0_l|].
    now apply Qplus_le_l.
  - apply Qlt_le_trans with (0 + eps)%Q; [now rewrite Qplus_0_l|].
    now apply Qplus_le_l.
Qed.

(** ** Claim on [auto_side_choice] *)

(** C3: [auto_side_choice] scores the left third [(0, 0, w//3, h)] and the
    right third [(w - w//3, 0, w, h)] of the background by
    [1/(var + 1e-6)] of their 64x64 grayscale samples and returns
    "Left-Center" when the left score is at least the right score,
    "Right-Center" otherwise; so it returns "Left-Center" exactly when the
    variance of the left third is at most that of the right third. *)
Theorem auto_side_choice_spec :
  forall (image : Type) (size : image -> Z * Z)
         (crop : image -> Z * Z * Z * Z -> image) (gray64 : image -> list Z)
         (bg : image),
  let w := fst (size bg) in
  let h := snd (size bg) in
  let l := crop bg (0, 0, w / 3, h) in
  let r := crop bg (w - w / 3, 0, w, h) in
  (auto_side_choice image size crop gray64 bg = LeftCenter \/
   auto_side_choice image size crop gray64 bg = RightCenter) /\
  (auto_side_choice image size crop gray64 bg = LeftCenter <->
   (image_blankness_score image gray64 r <= image_blankness_score image gray64 l)%Q) /\
  (auto_side_choice image size crop gray64 bg = LeftCenter <->
   (pil_var (gray64 l) <= pil_var (gray64 r))%Q).
Proof.
  intros image size crop gray64 bg w h l r.
  assert (El : left_third image size crop bg = l)
    by (unfold left_third, l, w, h; now destruct (size bg)).
  assert (Er : right_third image size crop bg = r)
    by (unfold right_third, r, w, h; now destruct (size bg)).
  unfold auto_side_choice. rewrite El, Er.
  assert (Hiff : (image_blankness_score image gray64 r <= image_blankness_score image gray64 l
                 <-> pil_var (gray64 l) <= pil_var (gray64 r))%Q)
    by apply score_ge_iff.
  destruct (Qle_bool _ _) eqn:E.
  - apply Qle_bool_iff in E. split; [now left|]. split; split; intros; try reflexivity;
      [exact E|now apply Hiff].
  - assert (Hn : ~ (image_blankness_score image gray64 r <= image_blankness_score image gray64 l)%Q).
    { intros H. apply Qle_bool_iff in H. congruence. }
    split; [now right|]. split; split; intros H; try discriminate;
      [contradiction|apply Hiff in H; contradiction].
Qed.

(** ** Lemmas on [classify] *)

Lemma classify_filter : forall fs ps,
  classify fs ps =
  (filter (fun p => match inspect fs p with Some true => true | _ => false end) ps,
   filter (fun p => match inspect fs p with Some false => true | _ => false end) ps).
Proof.
  intros fs. induction ps as [|p ps IH]; [reflexivity|].
  simpl. rewrite IH. destruct (inspect fs p) as [[|]|]; reflexivity.
Qed.

Lemma filter_first : forall (f : pystr -> bool) l q rest,
  filter f l = q :: rest ->
  exists pre post, l = pre ++ q :: post /\ f q = true /\ Forall (fun x => f x = false) pre.
Proof.
  intros f. induction l as [|x l IH]; intros q rest H; [discriminate|].
  simpl in H. destruct (f x) eqn:Fx.
  - injection H as <- _. exists [], l. repeat split; auto.
  - destruct (IH q rest H) as [pre [post [E [Fq Hpre]]]].
    exists (x :: pre), post. subst l. repeat split; auto.
Qed.

Lemma filter_nil_forall : forall (f : pystr -> bool) l,
  filter f l = [] -> Forall (fun x => f x = false) l.
Proof.
  intros f. induction l as [|x l IH]; intros H; constructor; simpl in H;
    destruct (f x) eqn:Fx; try discriminate; auto.
Qed.

(** ** Claim on [choose_best_pipe_for_background] *)

(** C4 (as the code does it): on an empty listing the result is [None].
    When some listed file can be read, the result is the first listed file
    that opens in mode "RGBA" with an alpha minimum below 255, or, when
    there is none, the first listed readable file; files that fail to open
    or inspect are skipped. *)
Theorem choose_best_pipe_spec : forall (fs : files) (cands : list pystr),
  (cands = [] -> choose_best_pipe_for_background fs cands = Ok None) /\
  ((exists p, In p cands /\ inspect fs p <> None) ->
   exists pre q post,
     cands = pre ++ q :: post /\
     choose_best_pipe_for_background fs cands = Ok (Some q) /\
     ((inspect fs q = Some true /\ Forall (fun x => inspect fs x <> Some true) pre) \/
      (inspect fs q = Some false /\ Forall (fun x => inspect fs x <> Some true) cands /\
       Forall (fun x => inspect fs x = None) pre))).
Proof.
  intros fs cands. split; [intros ->; reflexivity|].
  intros [p [Hp Hr]].
  assert (Hchoose : forall q rest,
            fst (classify fs cands) ++ snd (classify fs cands) = q :: rest ->
            choose_best_pipe_for_background fs cands = Ok (Some q)).
  { intros q rest E. unfold choose_best_pipe_for_background.
    destruct cands as [|c cs]; [destruct Hp|].
    destruct (classify fs (c :: cs)) as [a b]. simpl in E. now rewrite E. }
  rewrite classify_filter in Hchoose. cbn [fst snd] in Hchoose.
  set (ft := fun p => match inspect fs p with Some true => true | _ => false end) in *.
  set (fo := fun p => match inspect fs p with Some false => true | _ => false end) in *.
  destruct (filter ft cands) as [|q rest] eqn:Et.
  - (* no transparent RGBA file: the first readable one *)
    assert (Hnt := filter_nil_forall ft cands Et).
    destruct (filter fo cands) as [|q rest] eqn:Eo.
    + exfalso. assert (Hno := filter_nil_forall fo cands Eo).
      rewrite Forall_forall in Hnt, Hno. specialize (Hnt p Hp). specialize (Hno p Hp).
      unfold ft, fo in *. destruct (inspect fs p) as [[|]|]; congruence.
    + destruct (filter_first fo cands q rest Eo) as [pre [post [E [Fq Hpre]]]].
      exists pre, q, post. split; [exact E|]. split; [apply (Hchoose q rest); reflexivity|].
      right. unfold fo in Fq. destruct (inspect fs q) as [[|]|] eqn:Iq; try discriminate.
      split; [reflexivity|]. split.
      * apply Forall_impl with (2 := Hnt). intros x Hx. unfold ft in Hx.
        destruct (inspect fs x) as [[|]|]; congruence.
      * assert (Hpre_t : Forall (fun x => ft x = false) pre).
        { rewrite Forall_forall in Hnt |- *. intros x Hx. apply Hnt.
          rewrite E. apply in_or_app. now left. }
        rewrite Forall_forall in Hpre, Hpre_t |- *. intros x Hx.
        specialize (Hpre x Hx). specialize (Hpre_t x Hx). unfold ft, fo in *.
        destruct (inspect fs x) as [[|]|]; congruence.
  - (* the first transparent RGBA file *)
    destruct (filter_first ft cands q rest Et) as [pre [post [E [Fq Hpre]]]].
    exists pre, q, post. split; [exact E|]. split; [apply (Hchoose q (rest ++ filter fo cands)); reflexivity|].
    left. unfold ft in Fq. destruct (inspect fs q) as [[|]|]; try discriminate.
    split; [reflexivity|]. apply Forall_impl with (2 := Hpre). intros x Hx. unfold ft in Hx.
    destruct (inspect fs x) as [[|]|]; congruence.
Qed.

(** C4 fails as stated: a file whose alpha band reaches 0 but whose mode
    is "LA" is not preferred to an opaque RGB file listed before it; and a
    listing whose only file cannot be read raises [IndexError] instead of
    being skipped. *)
Lemma choose_best_pipe_counterexample :
  (exists f, pipes_ex (s_ "b.png") = Some f /\ list_min (f_alpha f) = Some 0) /\
  choose_best_pipe_for_background pipes_ex [s_ "a.png"; s_ "b.png"] = Ok (Some (s_ "a.png")) /\
  pipes_ex (s_ "c.txt") = None /\
  choose_best_pipe_for_background pipes_ex [s_ "c.txt"] = Err IndexError.
Proof.
  split; [eexists; split; reflexivity|].
  split; [reflexivity|]. split; reflexivity.
Qed.

(** ** Claim on [hex_to_rgba] *)

(** C6: [hex_to_rgba] checks only the type, the leading "#" and the length
    of its argument. A "#"-prefixed seven-character string whose pairs are
    not base-16 numerals raises [ValueError] from [int(..., 16)] instead of
    falling back to white, and pairs such as "-f" give components outside
    0..255; a well-formed code is expanded as expected. *)
Theorem hex_to_rgba_malformed_digits :
  hex_to_rgba (VStr (s_ "#zzzzzz")) 255 = Err ValueError /\
  hex_to_rgba (VStr (s_ "#-f+f f")) 255 = Ok (-15, 15, 15, 255) /\
  hex_to_rgba (VStr (s_ "#FF8000")) 255 = Ok (255, 128, 0, 255) /\
  hex_to_rgba (VStr (s_ "FF8000")) 255 = Ok (255, 255, 255, 255).
Proof. repeat split; reflexivity. Qed.

(** ** Claim on the font size *)

(** C7 fails as stated: [int()] truncates [W * ratio] where the claim
    rounds it; at a width of 220 and a ratio of 1/16 the product is 13.75,
    the code uses 13 pixels and [max(12, round(13.75))] is 14. *)
Lemma font_px_counterexample :
  font_px 220 (1 # 16) = 13 /\ Z.max 12 (py_round (inject_Z 220 * (1 # 16))) = 14.
Proof. split; reflexivity. Qed.

(** C7 (as the code does it): for a canvas width [W >= 0] and a ratio
    [r >= 0] the font size is [max(12, floor(W * r))], the product
    truncated, never below 12 pixels. *)
Theorem font_px_truncates : forall (W : Z) (r : Q),
  0 <= W -> (0 <= r)%Q ->
  font_px W r = Z.max 12 (Qfloor (inject_Z W * r)) /\ 12 <= font_px W r.
Proof.
  intros W r HW Hr. unfold font_px, py_int.
  assert (Hp : (0 <= inject_Z W * r)%Q).
  { apply Qmult_le_0_compat; [|exact Hr].
    change 0%Q with (inject_Z 0). rewrite <- Zle_Qle. exact HW. }
  apply Qle_bool_iff in Hp. rewrite Hp. split; [reflexivity|lia].
Qed.

Lemma font_px_truncates_witness :
  (0 <= 1080 /\ (0 <= 75 # 1000)%Q) /\
  font_px 1080 (75 # 1000) = Z.max 12 (Qfloor (inject_Z 1080 * (75 # 1000))) /\
  12 <= font_px 1080 (75 # 1000).
Proof.
  split; [split; [lia|apply Qle_bool_iff; reflexivity]|].
  apply font_px_truncates; [lia|apply Qle_bool_iff; reflexivity].
Defined.

(** ** [gradient_fallback] on a positive size *)

Lemma gradient_fallback_eq :
  forall (resample : img -> Z -> Z -> Z -> Z -> list Z) (w h : Z),
  0 < w -> 0 < h ->
  gradient_fallback resample w h =
  Ok {| i_mode := s_ "RGBA"; i_w := w; i_h := h;
        i_px := fun x y => blend_px grad_bottom grad_top
                             (mask_value (resample linear_gradient_L w h x y)) |}.
Proof.
  intros resample w h Hw Hh.
  unfold gradient_fallback, image_new, image_resize, image_composite.
  replace ((w <? 0) || (h <? 0)) with false
    by (symmetry; apply orb_false_iff; split; apply Z.ltb_ge; lia).
  replace ((0 <? w) && (0 <? h)) with true
    by (symmetry; apply andb_true_iff; split; apply Z.ltb_lt; lia).
  cbn [bind i_w i_h i_mode i_px]. rewrite !Z.eqb_refl. reflexivity.
Qed.

(** ** Claim on [gradient_fallback] *)

(** C8: for a positive width and height, [gradient_fallback] succeeds with
    an RGBA image of exactly that size, each pixel the blend of the dark
    top colour (20,20,28) and the warm bottom colour (120,60,20) by the
    value of the linear gradient mask resized to the full canvas (pure
    top colour where the mask is 0, pure bottom colour where it is 255);
    [call_ai_background] returns this image when no API URL is configured,
    when the prompt is blank, or when the request fails. *)
Theorem gradient_fallback_spec :
  forall (resample : img -> Z -> Z -> Z -> Z -> list Z) (w h : Z),
  0 < w -> 0 < h ->
  exists im,
    gradient_fallback resample w h = Ok im /\
    i_mode im = s_ "RGBA" /\ i_w im = w /\ i_h im = h /\
    (forall x y, i_px im x y =
       blend_px grad_bottom grad_top (mask_value (resample linear_gradient_L w h x y))) /\
    blend_px grad_bottom grad_top 0 = grad_top /\
    blend_px grad_bottom grad_top 255 = grad_bottom /\
    (forall api_url prompt response,
       api_url = [] \/ py_strip prompt = [] \/ (exists e, response = Err e) ->
       call_ai_background resample api_url prompt w h response = Ok im).
Proof.
  intros resample w h Hw Hh.
  rewrite (gradient_fallback_eq resample w h Hw Hh).
  eexists. split; [reflexivity|].
  do 6 (split; [reflexivity|]).
  intros api_url prompt response Hcase. unfold call_ai_background.
  destruct Hcase as [->|[Hp|[e ->]]].
  - apply gradient_fallback_eq; assumption.
  - rewrite Hp, orb_true_r. apply gradient_fallback_eq; assumption.
  - destruct (_ || _); apply gradient_fallback_eq; assumption.
Qed.

Lemma gradient_fallback_spec_witness :
  (0 < 1080 /\ 0 < 1080) /\
  exists im,
    gradient_fallback nearest 1080 1080 = Ok im /\
    i_mode im = s_ "RGBA" /\ i_w im = 1080 /\ i_h im = 1080 /\
    (forall x y, i_px im x y =
       blend_px grad_bottom grad_top (mask_value (nearest linear_gradient_L 1080 1080 x y))) /\
    blend_px grad_bottom grad_top 0 = grad_top /\
    blend_px grad_bottom grad_top 255 = grad_bottom /\
    (forall api_url prompt response,
       api_url = [] \/ py_strip prompt = [] \/ (exists e, response = Err e) ->
       call_ai_background nearest api_url prompt 1080 1080 response = Ok im).
Proof.
  split; [split; lia|].
  apply (gradient_fallback_spec nearest 1080 1080); lia.
Defined.

(** * Further properties of the code *)

(** ** [place_image] *)

Lemma str_eqb_true : forall a b, str_eqb a b = true <-> a = b.
Proof.
  intros a b. unfold str_eqb. destruct (list_eq_dec ascii_dec a b); split; congruence.
Qed.

Lemma str_eqb_other : forall a b, a <> b -> str_eqb a b = false.
Proof.
  intros a b H. destruct (str_eqb a b) eqn:E; [|reflexivity].
  apply str_eqb_true in E. contradiction.
Qed.

(** An anchor string outside the seven known ones (a typo, "Center", ...)
    is not rejected: the overlay goes where "Left-Center" puts it. *)
Theorem place_offset_unknown_anchor : forall anchor bw bh ow oh m,
  ~ In anchor anchors ->
  place_offset anchor bw bh ow oh m = place_offset LeftCenter bw bh ow oh m.
Proof.
  intros anchor bw bh ow oh m Hn.
  unfold place_offset.
  rewrite !str_eqb_other by (intros ->; apply Hn; simpl; tauto).
  reflexivity.
Qed.

Lemma place_offset_unknown_anchor_witness :
  ~ In (s_ "Center") anchors /\
  place_offset (s_ "Center") 1080 1080 400 300 24 = place_offset LeftCenter 1080 1080 400 300 24.
Proof.
  split; [vm_compute; intuition discriminate|].
  apply place_offset_unknown_anchor. vm_compute. intuition discriminate.
Defined.

(** With a non-negative margin and an overlay that fits in the canvas with
    a margin on both sides, every anchor string (known or not) places the
    overlay entirely inside the canvas, so nothing is clipped. *)
Theorem place_offset_inside : forall anchor bw bh ow oh m,
  0 <= m -> 0 <= ow -> 0 <= oh -> ow + 2 * m <= bw -> oh + 2 * m <= bh ->
  0 <= fst (place_offset anchor bw bh ow oh m) /\
  fst (place_offset anchor bw bh ow oh m) + ow <= bw /\
  0 <= snd (place_offset anchor bw bh ow oh m) /\
  snd (place_offset anchor bw bh ow oh m) + oh <= bh.
Proof.
  intros anchor bw bh ow oh m Hm Hw Hh Hbw Hbh.
  assert (Hx1 : 0 <= (bw - ow) / 2) by (apply Z.div_pos; lia).
  assert (Hx2 : (bw - ow) / 2 + ow <= bw) by (pose proof (Z.mul_div_le (bw - ow) 2); lia).
  assert (Hy1 : 0 <= (bh - oh) / 2) by (apply Z.div_pos; lia).
  assert (Hy2 : (bh - oh) / 2 + oh <= bh) by (pose proof (Z.mul_div_le (bh - oh) 2); lia).
  unfold place_offset.
  destruct (str_eqb anchor LeftCenter), (str_eqb anchor RightCenter),
    (str_eqb anchor BottomCenter), (str_eqb anchor TopLeft), (str_eqb anchor TopRight),
    (str_eqb anchor BottomLeft), (str_eqb anchor BottomRight); cbn; lia.
Qed.

Lemma place_offset_inside_witness :
  (0 <= 24 /\ 0 <= 486 /\ 0 <= 700 /\ 486 + 2 * 24 <= 1080 /\ 700 + 2 * 24 <= 1080) /\
  (0 <= fst (place_offset RightCenter 1080 1080 486 700 24) /\
   fst (place_offset RightCenter 1080 1080 486 700 24) + 486 <= 1080 /\
   0 <= snd (place_offset RightCenter 1080 1080 486 700 24) /\
   snd (place_offset RightCenter 1080 1080 486 700 24) + 700 <= 1080).
Proof.
  split; [lia|]. apply place_offset_inside; lia.
Defined.

(** ** [image_blankness_score] *)

Lemma px_sum_repeat : forall c n, px_sum (repeat c n) = Z.of_nat n * c.
Proof.
  intros c n. induction n as [|n IH]; [reflexivity|].
  cbn [repeat px_sum px_sum2]. rewrite IH, Nat2Z.inj_succ. lia.
Qed.

Lemma px_sum2_repeat : forall c n, px_sum2 (repeat c n) = Z.of_nat n * (c * c).
Proof.
  intros c n. induction n as [|n IH]; [reflexivity|].
  cbn [repeat px_sum px_sum2]. rewrite IH, Nat2Z.inj_succ. lia.
Qed.

(** The score of a sample lies in (0, 10^6], and a uniform (one-colour)
    non-empty sample has variance 0 and so the top score 10^6: a flat
    region is never scored below a busier one. *)
Theorem blankness_score_range : forall (image : Type) (gray64 : image -> list Z) (im : image),
  (0 < image_blankness_score image gray64 im <= 1000000)%Q /\
  (forall c n, gray64 im = repeat c (S n) ->
     pil_var (gray64 im) == 0 /\ image_blankness_score image gray64 im == 1000000)%Q.
Proof.
  intros image gray64 im.
  assert (Hpos : forall v, (0 <= v -> 0 < v + eps)%Q).
  { intros v Hv. apply Qlt_le_trans with (0 + eps)%Q; [reflexivity|]. now apply Qplus_le_l. }
  unfold image_blankness_score. unfold Qdiv. rewrite !Qmult_1_l.
  pose proof (pil_var_nonneg (gray64 im)) as Hv.
  split.
  - split.
    + apply Qinv_lt_0_compat, Hpos, Hv.
    + change 1000000%Q with (/ eps).
      apply inv_le_iff; [reflexivity|apply Hpos, Hv|].
      rewrite <- (Qplus_0_l eps) at 1. now apply Qplus_le_l.
  - intros c n E.
    assert (H0 : pil_var (gray64 im) == 0).
    { rewrite E. unfold pil_var. rewrite px_sum_repeat, px_sum2_repeat, repeat_length.
      rewrite !inject_Z_mult.
      assert (Hn : ~ inject_Z (Z.of_nat (S n)) == 0).
      { change 0%Q with (inject_Z 0). rewrite inject_Z_injective. lia. }
      field. exact Hn. }
    split; [exact H0|]. rewrite H0. reflexivity.
Qed.

(** ** [choose_best_pipe_for_background] *)

(** The only error [choose_best_pipe_for_background] raises is the
    [IndexError] of [ordered[0]], and it raises it exactly when the listing
    is non-empty and none of its files can be opened and inspected. *)
Theorem choose_best_pipe_index_error : forall (fs : files) (cands : list pystr),
  (forall e, choose_best_pipe_for_background fs cands = Err e -> e = IndexError) /\
  (choose_best_pipe_for_background fs cands = Err IndexError <->
   cands <> [] /\ Forall (fun p => inspect fs p = None) cands).
Proof.
  intros fs cands.
  assert (Hcl : forall ps, fst (classify fs ps) ++ snd (classify fs ps) = [] <->
                           Forall (fun p => inspect fs p = None) ps).
  { induction ps as [|p ps IH]; simpl; [split; auto|].
    destruct (classify fs ps) as [a b]. simpl in IH.
    destruct (inspect fs p) as [[|]|] eqn:Ip; simpl.
    - split; [discriminate|intros H; inversion H; congruence].
    - split; [intros H; destruct a; discriminate|intros H; inversion H; congruence].
    - rewrite IH. split; [intros H; now constructor|intros H; now inversion H]. }
  unfold choose_best_pipe_for_background.
  destruct cands as [|c cs].
  - split; [discriminate|]. split; [discriminate|intros [H _]; congruence].
  - specialize (Hcl (c :: cs)).
    destruct (classify fs (c :: cs)) as [a b]. simpl in Hcl.
    destruct (a ++ b) as [|q rest].
    + split; [intros e H; congruence|].
      split; [intros _; split; [discriminate|now apply Hcl]|reflexivity].
    + split; [discriminate|].
      split; [discriminate|intros [_ H]; apply Hcl in H; discriminate].
Qed.

(** ** [hex_to_rgba] on colour codes *)

Lemma hex_digit_props : forall c v, hex_digit c = Some v ->
  0 <= v < 16 /\ is_ws c = false /\
  Ascii.eqb c "-"%char = false /\ Ascii.eqb c "+"%char = false /\
  Ascii.eqb c "_"%char = false /\ Ascii.eqb c "x"%char = false /\
  Ascii.eqb c "X"%char = false.
Proof.
  intros c v H. destruct c as [b0 b1 b2 b3 b4 b5 b6 b7].
  destruct b0, b1, b2, b3, b4, b5, b6, b7; vm_compute in H; try discriminate;
    injection H as <-; vm_compute; repeat split; discriminate.
Qed.

Lemma py_int16_pair : forall c1 c2 v1 v2,
  hex_digit c1 = Some v1 -> hex_digit c2 = Some v2 ->
  py_int16 [c1; c2] = Some (v1 * 16 + v2).
Proof.
  intros c1 c2 v1 v2 H1 H2.
  destruct (hex_digit_props c1 v1 H1) as [_ [W1 [M1 [P1 [U1 [X1 Y1]]]]]].
  destruct (hex_digit_props c2 v2 H2) as [_ [W2 [M2 [P2 [U2 [X2 Y2]]]]]].
  unfold py_int16. rewrite (py_strip_id c1 [c2] [c1] c2 W1 W2 eq_refl).
  rewrite M1, P1. unfold hex_body. rewrite X2, Y2, andb_false_r, H1.
  simpl. rewrite U2, H2. reflexivity.
Qed.

(** A "#" followed by six hexadecimal digits, in either case, is decoded
    pair by pair into the red, green and blue components, each in
    0..255, with the given alpha. *)
Theorem hex_to_rgba_digits : forall c1 c2 c3 c4 c5 c6 v1 v2 v3 v4 v5 v6 a,
  hex_digit c1 = Some v1 -> hex_digit c2 = Some v2 -> hex_digit c3 = Some v3 ->
  hex_digit c4 = Some v4 -> hex_digit c5 = Some v5 -> hex_digit c6 = Some v6 ->
  hex_to_rgba (VStr ["#"%char; c1; c2; c3; c4; c5; c6]) a =
    Ok (16 * v1 + v2, 16 * v3 + v4, 16 * v5 + v6, a) /\
  0 <= 16 * v1 + v2 <= 255 /\ 0 <= 16 * v3 + v4 <= 255 /\ 0 <= 16 * v5 + v6 <= 255.
Proof.
  intros c1 c2 c3 c4 c5 c6 v1 v2 v3 v4 v5 v6 a H1 H2 H3 H4 H5 H6.
  pose proof (proj1 (hex_digit_props _ _ H1)). pose proof (proj1 (hex_digit_props _ _ H2)).
  pose proof (proj1 (hex_digit_props _ _ H3)). pose proof (proj1 (hex_digit_props _ _ H4)).
  pose proof (proj1 (hex_digit_props _ _ H5)). pose proof (proj1 (hex_digit_props _ _ H6)).
  split; [|lia].
  unfold hex_to_rgba. cbn [andb Ascii.eqb Bool.eqb List.length Nat.eqb].
  unfold slice. cbn [skipn firstn Nat.sub].
  rewrite (py_int16_pair c1 c2 v1 v2 H1 H2), (py_int16_pair c3 c4 v3 v4 H3 H4),
    (py_int16_pair c5 c6 v5 v6 H5 H6).
  rewrite (Z.mul_comm v1 16), (Z.mul_comm v3 16), (Z.mul_comm v5 16). reflexivity.
Qed.

Lemma hex_to_rgba_digits_witness :
  (hex_digit "f"%char = Some 15 /\ hex_digit "F"%char = Some 15 /\
   hex_digit "8"%char = Some 8 /\ hex_digit "0"%char = Some 0) /\
  hex_to_rgba (VStr ["#"%char; "f"%char; "F"%char; "8"%char; "0"%char; "0"%char; "0"%char]) 255 =
    Ok (16 * 15 + 15, 16 * 8 + 0, 16 * 0 + 0, 255) /\
  0 <= 16 * 15 + 15 <= 255 /\ 0 <= 16 * 8 + 0 <= 255 /\ 0 <= 16 * 0 + 0 <= 255.
Proof.
  split; [repeat split; reflexivity|].
  apply hex_to_rgba_digits; reflexivity.
Defined.

(** ** The lines of the word wrap *)

Lemma length_concat_nonempty : forall (groups : list (list pystr)),
  Forall (fun x => x <> []) groups ->
  (List.length groups <= List.length (List.concat groups))%nat.
Proof.
  induction groups as [|g gs IH]; intros H; [simpl; lia|].
  inversion H as [|? ? Hg Hgs]; subst. simpl. rewrite length_app.
  specialize (IH Hgs). destruct g; [congruence|]. simpl. lia.
Qed.

(** Every line of the wrap is non-empty and already stripped; there are
    no more lines than words, and no line at all exactly when the text
    has no word. *)
Theorem wrap_lines_shape : forall (measure : pystr -> Z) (W : Z) (text : pystr),
  Forall (fun l => l <> [] /\ py_strip l = l) (wrap measure W text) /\
  (List.length (wrap measure W text) <= List.length (py_split text))%nat /\
  (wrap measure W text = [] <-> py_split text = []).
Proof.
  intros measure W text.
  destruct (wrap_groups measure W text) as [groups [Hc [Hr [Hne _]]]].
  rewrite Hr. refine (conj _ (conj _ _)).
  - apply Forall_forall. intros l Hl. apply in_map_iff in Hl as [g [<- Hg]].
    assert (Hw : Forall wordlike g).
    { apply (Forall_concat_in _ groups); [rewrite Hc; apply py_split_wordlike|exact Hg]. }
    assert (Hg0 : g <> []) by (rewrite Forall_forall in Hne; now apply Hne).
    split; [now apply join_sp_nonempty|now apply py_strip_join].
  - rewrite length_map, <- Hc. now apply length_concat_nonempty.
  - rewrite <- Hc. destruct groups as [|g gs]; [simpl; tauto|].
    inversion Hne as [|? ? Hg _]; subst. simpl.
    split; intros E; [discriminate|]. destruct g; [congruence|discriminate].
Qed.

(** ** The text layout of [draw_text_multiline] and [draw_text] *)

(** With the shadow on, every line is drawn twice: first the shadow, two
    pixels right and down, in translucent black [(0,0,0,160)], then the
    line itself. The lines drawn are the lines given, in order, all in
    the same colour. *)
Theorem draw_lines_shadow : forall m W c y ls,
  draw_lines m W true c y ls =
    flat_map (fun op => [TextOp (t_x op + 2) (t_y op + 2) (t_line op) shadow_fill; op])
      (draw_lines m W false c y ls) /\
  map t_line (draw_lines m W false c y ls) = ls /\
  Forall (fun op => t_fill op = c) (draw_lines m W false c y ls).
Proof.
  intros m W c y ls. revert y.
  induction ls as [|l ls IH]; intros y; [simpl; auto|].
  destruct (IH (y + snd (m l) + 6)) as [H1 [H2 H3]].
  cbn [draw_lines app flat_map map t_line t_x t_y].
  refine (conj _ (conj _ _)).
  - now rewrite H1.
  - now rewrite H2.
  - now constructor.
Qed.

(** The [i]-th line drawn is centred: its left edge is [(W - tw)//2] for
    its width [tw], so the margins left and right differ by at most one
    pixel; its top is [y] plus the heights of the lines above and a gap
    of 6 pixels after each of them. *)
Theorem draw_lines_geometry : forall m W c y ls i op,
  nth_error (draw_lines m W false c y ls) i = Some op ->
  exists l, nth_error ls i = Some l /\ t_line op = l /\ t_fill op = c /\
    t_x op = (W - fst (m l)) / 2 /\
    W - fst (m l) - 1 <= 2 * t_x op <= W - fst (m l) /\
    t_y op = y + sum_heights m (firstn i ls) + 6 * Z.of_nat i.
Proof.
  intros m W c y ls. revert y.
  induction ls as [|l ls IH]; intros y i op H; [destruct i; discriminate|].
  destruct i as [|i]; cbn [draw_lines app nth_error] in H.
  - injection H as <-. exists l. cbn [t_x t_y t_line t_fill firstn sum_heights nth_error].
    refine (conj eq_refl (conj eq_refl (conj eq_refl (conj eq_refl (conj _ _))))).
    + pose proof (Z.div_mod (W - fst (m l)) 2 ltac:(lia)).
      pose proof (Z.mod_pos_bound (W - fst (m l)) 2 ltac:(lia)). lia.
    + lia.
  - destruct (IH _ i op H) as [l' [Hl [Hline [Hfill [Hx [Hc Hy]]]]]].
    exists l'. cbn [nth_error firstn sum_heights].
    refine (conj Hl (conj Hline (conj Hfill (conj Hx (conj Hc _))))).
    rewrite Hy, Nat2Z.inj_succ. lia.
Qed.

Lemma draw_lines_geometry_witness :
  nth_error (draw_lines (measure unit (mono_bbox 10 40) tt) 1080 false (255, 255, 255, 255) 100
               [s_ "Happy"; s_ "Diwali"]) 1
    = Some (TextOp 510 146 (s_ "Diwali") (255, 255, 255, 255)) /\
  exists l, nth_error [s_ "Happy"; s_ "Diwali"] 1 = Some l /\
    t_line (TextOp 510 146 (s_ "Diwali") (255, 255, 255, 255)) = l /\
    t_fill (TextOp 510 146 (s_ "Diwali") (255, 255, 255, 255)) = (255, 255, 255, 255) /\
    t_x (TextOp 510 146 (s_ "Diwali") (255, 255, 255, 255))
      = (1080 - fst (measure unit (mono_bbox 10 40) tt l)) / 2 /\
    1080 - fst (measure unit (mono_bbox 10 40) tt l) - 1
      <= 2 * t_x (TextOp 510 146 (s_ "Diwali") (255, 255, 255, 255))
      <= 1080 - fst (measure unit (mono_bbox 10 40) tt l) /\
    t_y (TextOp 510 146 (s_ "Diwali") (255, 255, 255, 255))
      = 100 + sum_heights (measure unit (mono_bbox 10 40) tt)
                (firstn 1 [s_ "Happy"; s_ "Diwali"]) + 6 * Z.of_nat 1.
Proof.
  split; [reflexivity|]. apply draw_lines_geometry. reflexivity.
Defined.

Lemma py_int_close : forall q, (q - 1 < inject_Z (py_int q) < q + 1)%Q.
Proof.
  intros q. unfold py_int. destruct (Qle_bool 0 q) eqn:E.
  - apply Qle_bool_iff in E.
    pose proof (Qfloor_le q). pose proof (Qlt_floor q).
    rewrite inject_Z_plus in *. change (inject_Z 1) with 1%Q in *. split; lra.
  - assert (Hq : (q < 0)%Q).
    { apply Qnot_le_lt. intros Hle. apply Qle_bool_iff in Hle. congruence. }
    pose proof (Qfloor_le (- q)). pose proof (Qlt_floor (- q)).
    rewrite inject_Z_opp. rewrite inject_Z_plus in *.
    change (inject_Z 1) with 1%Q in *. split; lra.
Qed.

Lemma hex_to_rgba_alpha : forall v a c, hex_to_rgba v a = Ok c -> snd c = a.
Proof.
  intros v a c H. unfold hex_to_rgba in H.
  destruct v as [s|]; [|injection H as <-; reflexivity].
  destruct (_ && _); [|injection H as <-; reflexivity].
  destruct (py_int16 (slice s 1 3)), (py_int16 (slice s 3 5)), (py_int16 (slice s 5 7));
    try discriminate. injection H as <-. reflexivity.
Qed.

(** [draw_text_multiline] fails only on a non-empty text with a fill
    that [hex_to_rgba] rejects, and then with that error; an empty text
    is not drawn and its fill never looked at; a text of whitespace only
    draws nothing. *)
Theorem draw_text_multiline_errors :
  forall font truetype (load_default : font) textbbox fm fh W H text y_frac fill ratio
         shadow_on devanagari,
  (forall e, draw_text_multiline font truetype load_default textbbox fm fh W H text y_frac
               fill ratio shadow_on devanagari = Err e
             <-> text <> [] /\ hex_to_rgba fill 255 = Err e) /\
  (py_split text = [] ->
   forall ops, draw_text_multiline font truetype load_default textbbox fm fh W H text y_frac
                 fill ratio shadow_on devanagari = Ok ops -> ops = []).
Proof.
  intros. unfold draw_text_multiline.
  destruct text as [|c s].
  - cbn [is_empty]. split.
    + intros e. split; [discriminate|]. intros [Hn _]. congruence.
    + intros _ ops Hk. congruence.
  - cbn [is_empty]. destruct (hex_to_rgba fill 255) as [col|e0]; cbn [bind]; split.
    + intros e. split; [discriminate|]. intros [_ Hk]. discriminate.
    + intros Hs ops Hk. injection Hk as <-. unfold wrap. rewrite Hs. reflexivity.
    + intros e. split; [intros Hk; injection Hk as <-; split; [discriminate|reflexivity]|].
      intros [_ Hk]. now injection Hk as <-.
    + intros _ ops Hk. discriminate.
Qed.

(** When [draw_text_multiline] succeeds, it draws the wrap of the text
    with [draw_lines], in an opaque colour, from a top [y0] such that the
    block of lines (heights plus 6 pixels between lines) has its middle
    within one pixel of [H*y_frac]. *)
Theorem draw_text_multiline_block :
  forall font truetype (load_default : font) textbbox fm fh W H text y_frac fill ratio
         shadow_on devanagari ops,
  draw_text_multiline font truetype load_default textbbox fm fh W H text y_frac
    fill ratio shadow_on devanagari = Ok ops ->
  let m := measure font textbbox
             (font_from_path font truetype load_default
                (if devanagari then fh else fm) (font_px W ratio) devanagari) in
  let lines := wrap (fun t => fst (m t)) W text in
  exists color y0,
    ops = draw_lines m W shadow_on color y0 lines /\ snd color = 255 /\
    (-1 < inject_Z y0 + inject_Z (total_h m lines) / 2 - inject_Z H * y_frac < 1)%Q.
Proof.
  intros font truetype load_default textbbox fm fh W H text y_frac fill ratio
    shadow_on devanagari ops Hok m lines.
  set (q := (inject_Z H * y_frac - inject_Z (total_h m lines) / 2)%Q).
  pose proof (py_int_close q) as Hq.
  unfold draw_text_multiline in Hok. fold m in Hok. fold lines in Hok. fold q in Hok.
  destruct text as [|c s].
  - cbn [is_empty] in Hok. injection Hok as <-.
    exists (0, 0, 0, 255), (py_int q). split; [reflexivity|]. split; [reflexivity|].
    unfold q in *. split; lra.
  - cbn [is_empty] in Hok. destruct (hex_to_rgba fill 255) as [col|e] eqn:E;
      cbn [bind] in Hok; [|discriminate]. injection Hok as <-.
    exists col, (py_int q). split; [reflexivity|]. split; [exact (hex_to_rgba_alpha _ _ _ E)|].
    unfold q in *. split; lra.
Qed.

Lemma draw_text_multiline_block_witness :
  draw_text_multiline unit (fun _ _ => Some tt) tt (mono_bbox 10 40) [] [] 1080 1080
    (s_ "Happy Diwali") (18 # 100) (VStr (s_ "#FFFFFF")) (7 # 100) true false
    = Ok [TextOp 482 176 (s_ "Happy Diwali") shadow_fill;
          TextOp 480 174 (s_ "Happy Diwali") (255, 255, 255, 255)] /\
  let m := measure unit (mono_bbox 10 40)
             (font_from_path unit (fun _ _ => Some tt) tt
                (if false then [] else []) (font_px 1080 (7 # 100)) false) in
  let lines := wrap (fun t => fst (m t)) 1080 (s_ "Happy Diwali") in
  exists color y0,
    [TextOp 482 176 (s_ "Happy Diwali") shadow_fill;
     TextOp 480 174 (s_ "Happy Diwali") (255, 255, 255, 255)]
      = draw_lines m 1080 true color y0 lines /\ snd color = 255 /\
    (-1 < inject_Z y0 + inject_Z (total_h m lines) / 2 - inject_Z 1080 * (18 # 100) < 1)%Q.
Proof.
  split; [vm_compute; reflexivity|].
  exact (draw_text_multiline_block unit (fun _ _ => Some tt) tt (mono_bbox 10 40) [] []
           1080 1080 (s_ "Happy Diwali") (18 # 100) (VStr (s_ "#FFFFFF")) (7 # 100) true false
           _ (eq_refl _)).
Defined.

(** The [draw_text] of the Generate block makes the same calls as
    [draw_text_multiline] with [fill=brand_color] and [shadow_on=shadow]:
    computing the colour before the wrap changes nothing. *)
Theorem draw_text_is_multiline :
  forall font truetype (load_default : font) textbbox fm fh brand_color shadow W H txt y
         ratio devanagari,
  draw_text font truetype load_default textbbox fm fh brand_color shadow W H txt y ratio devanagari
  = draw_text_multiline font truetype load_default textbbox fm fh W H txt y brand_color ratio
      shadow devanagari.
Proof.
  intros. unfold draw_text, draw_text_multiline.
  destruct (is_empty txt); [reflexivity|].
  destruct (hex_to_rgba brand_color 255); reflexivity.
Qed.

(** ** [font_from_path] *)

Lemma lstrip_idem : forall s, lstrip (lstrip s) = lstrip s.
Proof.
  induction s as [|c s IH]; [reflexivity|]. cbn [lstrip].
  destruct (is_ws c) eqn:E; [exact IH|]. cbn [lstrip]. now rewrite E.
Qed.

Lemma lstrip_suffix : forall s, exists p, s = p ++ lstrip s.
Proof.
  induction s as [|c s [p IH]]; [now exists []|]. cbn [lstrip].
  destruct (is_ws c); [exists (c :: p); simpl; now f_equal|now exists []].
Qed.

Lemma lstrip_head : forall s c t, lstrip s = c :: t -> is_ws c = false.
Proof.
  induction s as [|d s IH]; intros c t H; [discriminate|]. cbn [lstrip] in H.
  destruct (is_ws d) eqn:E; [exact (IH _ _ H)|]. injection H as <- _. exact E.
Qed.

Lemma py_strip_idem : forall s, py_strip (py_strip s) = py_strip s.
Proof.
  intros s. unfold py_strip.
  set (l := lstrip s). set (u := lstrip (rev l)).
  assert (Hu : lstrip (rev u) = rev u).
  { destruct (lstrip_suffix (rev l)) as [p Hp]. fold u in Hp.
    assert (Hl : l = rev u ++ rev p) by (rewrite <- rev_app_distr, <- Hp; now rewrite rev_involutive).
    destruct (rev u) as [|c t] eqn:Eu; [reflexivity|].
    apply lstrip_id. unfold nonws. apply (lstrip_head s c (t ++ rev p)).
    fold l. rewrite Hl. reflexivity. }
  rewrite Hu, rev_involutive. unfold u. now rewrite lstrip_idem.
Qed.

(** The font path typed by the user is used stripped of surrounding
    whitespace; a font that loads from it is the one returned; a blank
    path, or one that does not load, falls back to exactly the fonts tried
    without a path. *)
Theorem font_from_path_hint : forall font truetype (load_default : font) hint px devanagari,
  font_from_path font truetype load_default hint px devanagari
    = font_from_path font truetype load_default (py_strip hint) px devanagari /\
  (forall f, py_strip hint <> [] -> truetype (py_strip hint) px = Some f ->
     font_from_path font truetype load_default hint px devanagari = f) /\
  (py_strip hint = [] \/ truetype (py_strip hint) px = None ->
     font_from_path font truetype load_default hint px devanagari
       = font_from_path font truetype load_default [] px devanagari).
Proof.
  intros. unfold font_from_path, try_paths. refine (conj _ (conj _ _)).
  - now rewrite py_strip_idem.
  - intros f Hne Hf. destruct (py_strip hint) as [|c t]; [congruence|].
    cbn [is_empty app first_font]. now rewrite Hf.
  - change (py_strip []) with (@nil ascii). cbn [is_empty app].
    intros [E|E]; [now rewrite E|].
    destruct (py_strip hint) as [|c t]; [reflexivity|].
    cbn [is_empty app first_font]. now rewrite E.
Qed.

(** ** [add_festival_overlays] *)

Lemma py_int_floor : forall q, (0 <= q)%Q -> 0 <= py_int q /\ (inject_Z (py_int q) <= q)%Q.
Proof.
  intros q Hq. unfold py_int.
  replace (Qle_bool 0 q) with true by (symmetry; now apply Qle_bool_iff).
  split; [|apply Qfloor_le].
  change 0 with (Qfloor 0). now apply Qfloor_resp_le.
Qed.

Lemma py_int_mono : forall a b, (0 <= a)%Q -> (a <= b)%Q -> py_int a <= py_int b.
Proof.
  intros a b Ha Hab. unfold py_int.
  replace (Qle_bool 0 a) with true by (symmetry; now apply Qle_bool_iff).
  replace (Qle_bool 0 b) with true by (symmetry; apply Qle_bool_iff; lra).
  now apply Qfloor_resp_le.
Qed.

Section OverlayProofs.

Variable rng : Type.
Variable uniform : rng -> Q -> Q -> Q * rng.
Variable choice : rng -> nat -> nat * rng.
Variable open_size : pystr -> option (Z * Z).
Variable resize_ok : Z * Z -> bool.
Variable composite_ok : Z * Z -> Z * Z -> bool.

Hypothesis uniform_range : forall r a b, (a <= b)%Q -> (a <= fst (uniform r a b) <= b)%Q.
Hypothesis choice_range : forall r n, (0 < n)%nat -> (fst (choice r n) < n)%nat.

Lemma overlay_one_fits : forall W H r p x r',
  overlay_one rng uniform choice open_size resize_ok composite_ok W H r p = (Some x, r') ->
  p_file x = p /\ (0 <= W -> 0 <= H -> overlay_fits W x).
Proof.
  intros W H r p x r' E. unfold overlay_one in E.
  destruct (open_size p) as [[ew eh]|]; [|discriminate].
  pose proof (uniform_range r (8 # 100) (20 # 100) ltac:(unfold Qle; simpl; lia)) as Hu.
  destruct (uniform r (8 # 100) (20 # 100)) as [u r1]. cbn [fst] in Hu.
  destruct (ew =? 0); [discriminate|].
  destruct (negb _); [discriminate|].
  pose proof (choice_range r1 6 ltac:(lia)) as Hi.
  destruct (choice r1 6) as [i r2]. cbn [fst] in Hi.
  destruct (composite_ok _ _); [|discriminate].
  injection E as <- _. split; [reflexivity|]. intros HW HH.
  unfold overlay_fits. cbn [p_size p_dest fst].
  set (tw := py_int (inject_Z W * u)).
  set (m := py_int (inject_Z (Z.min W H) * (3 # 100))).
  assert (HW' : (0 <= inject_Z W)%Q) by (change 0%Q with (inject_Z 0); rewrite <- Zle_Qle; lia).
  assert (Hmin : (0 <= inject_Z (Z.min W H) <= inject_Z W)%Q).
  { change 0%Q with (inject_Z 0). split; rewrite <- Zle_Qle; lia. }
  assert (Hlo : (inject_Z W * (8 # 100) <= inject_Z W * u)%Q)
    by (rewrite !(Qmult_comm (inject_Z W)); apply Qmult_le_compat_r; lra).
  assert (Hhi : (inject_Z W * u <= inject_Z W * (20 # 100))%Q)
    by (rewrite !(Qmult_comm (inject_Z W)); apply Qmult_le_compat_r; lra).
  assert (Hw0 : (0 <= inject_Z W * (8 # 100))%Q) by lra.
  destruct (py_int_floor (inject_Z W * u) ltac:(lra)) as [Htw0 Htw].
  fold tw in Htw0, Htw.
  destruct (py_int_floor (inject_Z (Z.min W H) * (3 # 100)) ltac:(lra)) as [Hm0 Hm].
  fold m in Hm0, Hm.
  assert (H5 : 5 * tw <= W).
  { rewrite Zle_Qle, inject_Z_mult. change (inject_Z 5) with 5%Q. lra. }
  assert (H100 : 100 * m <= 3 * W).
  { rewrite Zle_Qle, !inject_Z_mult. change (inject_Z 100) with 100%Q.
    change (inject_Z 3) with 3%Q. lra. }
  split; [split; apply py_int_mono; lra|].
  set (nh := py_int _).
  destruct i as [|[|[|[|[|[|i]]]]]]; [..|lia]; cbn [nth zones fst];
    split; Z.div_mod_to_equations; lia.
Qed.

Lemma overlay_loop_props : forall W H picks r,
  let ps := fst (overlay_loop rng uniform choice open_size resize_ok composite_ok W H r picks) in
  (List.length ps <= List.length picks)%nat /\
  Forall (fun x => In (p_file x) picks) ps /\
  (NoDup picks -> NoDup (map p_file ps)) /\
  (0 <= W -> 0 <= H -> Forall (overlay_fits W) ps).
Proof.
  intros W H picks. induction picks as [|p picks IH]; intros r ps.
  - subst ps. simpl. repeat split; auto; constructor.
  - subst ps. cbn [overlay_loop].
    destruct (overlay_one _ _ _ _ _ _ W H r p) as [o r1] eqn:E1.
    specialize (IH r1). cbv zeta in IH.
    destruct (overlay_loop _ _ _ _ _ _ W H r1 picks) as [rest r2] eqn:E2.
    cbn [fst] in IH |- *. destruct IH as [Hlen [Hin [Hnd Hfit]]].
    destruct o as [x|].
    + destruct (overlay_one_fits W H r p x r1 E1) as [Hx Hxfit]. subst p.
      refine (conj _ (conj _ (conj _ _))).
      * simpl. lia.
      * constructor; [now left|].
        eapply Forall_impl; [|exact Hin]. intros y Hy. now right.
      * intros Hp. inversion Hp as [|? ? Hnp Hp']; subst. cbn [map].
        constructor; [|now apply Hnd]. intros Hm.
        apply in_map_iff in Hm as [y [Hy Hyin]].
        rewrite Forall_forall in Hin. apply Hnp. rewrite <- Hy. now apply Hin.
      * intros HW HH. constructor; [now apply Hxfit|now apply Hfit].
    + refine (conj _ (conj _ (conj _ _))).
      * simpl. lia.
      * eapply Forall_impl; [|exact Hin]. intros y Hy. now right.
      * intros Hp. inversion Hp; subst. now apply Hnd.
      * exact Hfit.
Qed.

End OverlayProofs.

(** Without a folder for the festival ([festival.lower()], then
    [festival]) or without a PNG in it, the base is returned untouched
    and no random number is drawn. Otherwise at most
    [min(how_many, number of PNGs)] overlays are composited, each from a
    PNG of that folder and no PNG twice; each is [int(W*0.08)] to
    [int(W*0.20)] wide and lies horizontally inside the base. *)
Theorem add_festival_overlays_spec :
  forall rng sample uniform choice dir_exists glob_png open_size resize_ok composite_ok,
  (forall r l k, (k <= List.length l)%nat ->
     List.length (fst (sample r l k)) = k /\ incl (fst (sample r l k)) l /\
     (NoDup l -> NoDup (fst (sample r l k)))) ->
  (forall r a b, (a <= b)%Q -> (a <= fst (uniform r a b) <= b)%Q) ->
  (forall r n, (0 < n)%nat -> (fst (choice r n) < n)%nat) ->
  forall (W H : Z) festival how_many (r : rng),
  let res := add_festival_overlays rng sample uniform choice dir_exists glob_png open_size
               resize_ok composite_ok W H festival how_many r in
  ((fest_folder dir_exists festival = None \/
    exists f, fest_folder dir_exists festival = Some f /\ glob_png f = []) ->
   res = ([], r)) /\
  (forall f, fest_folder dir_exists festival = Some f ->
     (List.length (fst res) <= Nat.min how_many (List.length (glob_png f)))%nat /\
     Forall (fun x => In (p_file x) (glob_png f)) (fst res) /\
     (NoDup (glob_png f) -> NoDup (map p_file (fst res)))) /\
  (0 <= W -> 0 <= H -> Forall (overlay_fits W) (fst res)).
Proof.
  intros rng sample uniform choice dir_exists glob_png open_size resize_ok composite_ok
    Hs Hu Hc W H festival how_many r res.
  unfold res, add_festival_overlays. refine (conj _ (conj _ _)).
  - intros [E|[f [E G]]]; rewrite E; [reflexivity|]. now rewrite G.
  - intros f E. rewrite E.
    destruct (glob_png f) as [|g gs] eqn:G.
    + cbn [fst map List.length]. refine (conj _ (conj _ _)); [lia|constructor|constructor].
    + set (k := Nat.min how_many (List.length (g :: gs))).
      destruct (Hs r (g :: gs) k ltac:(unfold k; lia)) as [Hk [Hincl Hnd]].
      destruct (sample r (g :: gs) k) as [picks r1]. cbn [fst] in Hk, Hincl, Hnd.
      destruct (overlay_loop_props rng uniform choice open_size resize_ok composite_ok Hu Hc
                  W H picks r1) as [L [I [N _]]].
      refine (conj _ (conj _ _)).
      * lia.
      * eapply Forall_impl; [|exact I]. intros x Hx. now apply Hincl.
      * intros Hg. now apply N, Hnd.
  - intros HW HH. destruct (fest_folder dir_exists festival) as [f|]; [|constructor].
    destruct (glob_png f) as [|g gs]; [constructor|].
    destruct (sample r (g :: gs) _) as [picks r1].
    now apply (overlay_loop_props rng uniform choice open_size resize_ok composite_ok Hu Hc).
Qed.

Lemma add_festival_overlays_spec_witness :
  fst (add_festival_overlays nat first_sample low_uniform counter_choice
         (fun f => str_eqb f (s_ "diwali")) (fun _ => fest_pngs)
         (fun p => if str_eqb p (s_ "diya.png") then None else Some (200, 100))
         (fun _ => true) (fun _ _ => true) 1080 1080 (s_ "Diwali") 3 0%nat)
    = [Paste (s_ "lamp.png") (86, 43) (962, 32); Paste (s_ "rangoli.png") (86, 43) (962, 1005)] /\
  let res := add_festival_overlays nat first_sample low_uniform counter_choice
               (fun f => str_eqb f (s_ "diwali")) (fun _ => fest_pngs)
               (fun p => if str_eqb p (s_ "diya.png") then None else Some (200, 100))
               (fun _ => true) (fun _ _ => true) 1080 1080 (s_ "Diwali") 3 0%nat in
  ((fest_folder (fun f => str_eqb f (s_ "diwali")) (s_ "Diwali") = None \/
    exists f, fest_folder (fun f => str_eqb f (s_ "diwali")) (s_ "Diwali") = Some f /\
              (fun _ => fest_pngs) f = []) ->
   res = ([], 0%nat)) /\
  (forall f, fest_folder (fun f => str_eqb f (s_ "diwali")) (s_ "Diwali") = Some f ->
     (List.length (fst res) <= Nat.min 3 (List.length ((fun _ => fest_pngs) f)))%nat /\
     Forall (fun x => In (p_file x) ((fun _ => fest_pngs) f)) (fst res) /\
     (NoDup ((fun _ => fest_pngs) f) -> NoDup (map p_file (fst res)))) /\
  (0 <= 1080 -> 0 <= 1080 -> Forall (overlay_fits 1080) (fst res)).
Proof.
  split; [vm_compute; reflexivity|].
  apply (add_festival_overlays_spec nat first_sample low_uniform counter_choice).
  - intros r l k Hk. unfold first_sample. cbn [fst].
    refine (conj _ (conj _ _)).
    + rewrite length_firstn. lia.
    + intros x Hx. rewrite <- (firstn_skipn k l). apply in_or_app. now left.
    + intros Hn. rewrite <- (firstn_skipn k l) in Hn. exact (NoDup_app_remove_r _ _ Hn).
  - intros r a b Hab. unfold low_uniform. cbn [fst]. split; [apply Qle_refl|exact Hab].
  - intros r n Hn. unfold counter_choice. cbn [fst]. apply Nat.mod_upper_bound. lia.
Defined.

(** ** The automatic pipe placement of the Generate block *)


(** ** [hex_to_rgba] on the colour picker and on other values *)

Lemma hex_char_digit : forall d, 0 <= d < 16 -> hex_digit (hex_char d) = Some d.
Proof.
  intros d Hd. unfold hex_char.
  replace d with (Z.of_nat (Z.to_nat d)) at 2 by lia.
  assert (Hn : (Z.to_nat d < 16)%nat) by lia.
  generalize (Z.to_nat d) Hn. intros n Hn'.
  do 16 (destruct n as [|n]; [reflexivity|]). lia.
Qed.

(** The colour "#rrggbb" of the picker is decoded back into its
    components, whatever the colour. *)
Theorem color_hex_roundtrip : forall r g b a,
  0 <= r <= 255 -> 0 <= g <= 255 -> 0 <= b <= 255 ->
  hex_to_rgba (VStr (color_hex r g b)) a = Ok (r, g, b, a).
Proof.
  intros r g b a Hr Hg Hb. unfold hex_to_rgba, color_hex.
  cbn [andb Ascii.eqb Bool.eqb List.length Nat.eqb].
  unfold slice. cbn [skipn firstn Nat.sub].
  rewrite (py_int16_pair _ _ (r / 16) (r mod 16)), (py_int16_pair _ _ (g / 16) (g mod 16)),
    (py_int16_pair _ _ (b / 16) (b mod 16));
    try (apply hex_char_digit; first [apply Z.mod_pos_bound; lia | split; [apply Z.div_pos | apply Z.div_lt_upper_bound]; lia]).
  rewrite <- !(Z.mul_comm 16), <- !Z.div_mod by lia. reflexivity.
Qed.

Lemma color_hex_roundtrip_witness :
  color_hex 255 128 0 = s_ "#ff8000" /\ hex_to_rgba (VStr (color_hex 255 128 0)) 255 = Ok (255, 128, 0, 255).
Proof.
  split; [reflexivity|]. apply color_hex_roundtrip; lia.
Defined.

(** [hex_to_rgba] keeps the alpha it is given, raises nothing but
    [ValueError], and that only on a 7-character string starting with
    "#"; on any other value it gives opaque white. *)
Theorem hex_to_rgba_errors : forall v a,
  (forall c, hex_to_rgba v a = Ok c -> snd c = a) /\
  (forall e, hex_to_rgba v a = Err e ->
     e = ValueError /\ exists s, v = VStr ("#"%char :: s) /\ List.length s = 6%nat) /\
  ((forall s, v = VStr s -> List.length s <> 7%nat \/ firstn 1 s <> ["#"%char]) ->
     hex_to_rgba v a = Ok (255, 255, 255, a)).
Proof.
  intros v a. refine (conj (hex_to_rgba_alpha v a) (conj _ _)).
  - intros e H. unfold hex_to_rgba in H. destruct v as [s|]; [|discriminate].
    destruct s as [|c s]; [discriminate|].
    destruct (Ascii.eqb c "#"%char) eqn:Ec; [|discriminate].
    destruct (List.length (c :: s) =? 7)%nat eqn:El; [|discriminate].
    apply Ascii.eqb_eq in Ec. apply Nat.eqb_eq in El. subst c. cbn [andb] in H.
    destruct (py_int16 (slice ("#"%char :: s) 1 3)), (py_int16 (slice ("#"%char :: s) 3 5)),
      (py_int16 (slice ("#"%char :: s) 5 7)); try discriminate.
    all: injection H as <-; split; [reflexivity|]; exists s; split; [reflexivity|];
      simpl in El; lia.
  - intros Hv. unfold hex_to_rgba. destruct v as [s|]; [|reflexivity].
    destruct (Hv s eq_refl) as [Hl|Hh].
    + replace ((List.length s =? 7)%nat) with false by (symmetry; now apply Nat.eqb_neq).
      now rewrite andb_false_r.
    + destruct s as [|c s]; [reflexivity|].
      destruct (Ascii.eqb c "#"%char) eqn:Ec; [|reflexivity].
      apply Ascii.eqb_eq in Ec. subst c. now destruct Hh.
Qed.
